(** * Semantic versions: data model, rendering and precedence

    A shallow embedding of the Go package [semver] (semver.go and the two
    variants of commit_hash.go) together with the parts of the Go standard
    library its code calls: [strconv.Atoi], [strings.Split] with a one-byte
    separator, the [%d] verb of [fmt.Sprintf] and the settings of
    [debug.ReadBuildInfo].

    Go strings are byte sequences: they are modelled by [string] (a list of
    8-bit [ascii] values), whose [String.compare] is the byte-wise order Go's
    [<] and [>] use.  Go's [int] is modelled by [Z]; the code under study
    never does arithmetic on the version numbers, so no wrap-around is
    involved, and the width of [int] only matters for [strconv.Atoi]. *)

From Stdlib Require Import ZArith List Bool Ascii String Lia Permutation.
Import ListNotations.

Local Open Scope Z_scope.
Local Open Scope string_scope.

(** ** The platform *)

(** [strconv.IntSize]: the width in bits of Go's [int]. *)
Class Arch := { intSize : Z }.

Definition amd64 : Arch := {| intSize := 64 |}.
Definition i386 : Arch := {| intSize := 32 |}.

(** ** strings *)

Module Strings.

(** Go's [s < t] on strings. *)
Definition lt (s t : string) : bool :=
  match String.compare s t with Lt => true | _ => false end.

(** Go's [s > t] on strings. *)
Definition gt (s t : string) : bool :=
  match String.compare s t with Gt => true | _ => false end.

(** [strings.Split(s, sep)] for a separator of one byte: the fields
    between the occurrences of [sep]; a string with [n] separators has
    [n + 1] fields, and the empty string has the single field [""]. *)
Fixpoint Split (s : string) (sep : ascii) : list string :=
  match s with
  | EmptyString => [EmptyString]
  | String c rest =>
      if Ascii.eqb c sep then EmptyString :: Split rest sep
      else match Split rest sep with
           | field :: fields => String c field :: fields
           | [] => [String c EmptyString]
           end
  end.

End Strings.

(** ** strconv *)

Module Strconv.

Local Open Scope Z_scope.

Inductive NumError := ErrSyntax | ErrRange.

Definition isDigit (c : ascii) : bool :=
  (48 <=? Z.of_N (N_of_ascii c)) && (Z.of_N (N_of_ascii c) <=? 57).

Definition digitVal (c : ascii) : Z := Z.of_N (N_of_ascii c) - 48.

(** The digit loop of [ParseUint] in base 10: [n = n*10 + d] for every
    byte, a syntax error ([None]) at the first byte that is no digit. *)
Fixpoint parseDigits (s : string) (n : Z) : option Z :=
  match s with
  | EmptyString => Some n
  | String c rest =>
      if isDigit c then parseDigits rest (n * 10 + digitVal c) else None
  end.

(** [ParseInt(s, 10, 0)]: an optional sign, at least one decimal digit,
    and a value that fits [int]. *)
Definition ParseInt `{Arch} (s : string) : Z + NumError :=
  match s with
  | EmptyString => inr ErrSyntax
  | String c rest =>
      let neg := Ascii.eqb c "-" in
      let body := if Ascii.eqb c "+" || neg then rest else s in
      match body with
      | EmptyString => inr ErrSyntax
      | _ =>
          match parseDigits body 0 with
          | None => inr ErrSyntax
          | Some un =>
              let cutoff := 2 ^ (intSize - 1) in
              if negb neg && (un >=? cutoff) then inr ErrRange
              else if neg && (un >? cutoff) then inr ErrRange
              else inl (if neg then - un else un)
          end
      end
  end.

(** [strconv.Atoi(s)] is [ParseInt(s, 10, 0)] converted to [int]. *)
Definition Atoi `{Arch} (s : string) : Z + NumError := ParseInt s.

End Strconv.

(** ** fmt *)

Module Fmt.

Local Open Scope Z_scope.

Definition digitChar (d : Z) : ascii := ascii_of_N (Z.to_N (48 + d)).

(** The digit loop of the [%d] verb: the digits of [u] are produced from
    the least significant one and put in front of what is already
    written. *)
Fixpoint fmtUint (fuel : nat) (u : Z) (acc : string) : string :=
  match fuel with
  | O => acc
  | S fuel' =>
      if 10 <=? u
      then fmtUint fuel' (u / 10) (String (digitChar (u mod 10)) acc)
      else String (digitChar u) acc
  end.

(** [fmt.Sprintf("%d", n)]. *)
Definition fmtInteger (n : Z) : string :=
  let u := Z.abs n in
  let digits := fmtUint (S (Z.to_nat (Z.log2 u))) u EmptyString in
  if n <? 0 then String "-" digits else digits.

End Fmt.

(** ** Version *)

Module Version.

Import Strings Strconv Fmt.

Record t := mk {
  Major : Z;
  Minor : Z;
  Patch : Z;
  PreRelease : string;
  Build : string
}.

(** [fmt.Sprintf("%d.%d.%d", v.Major, v.Minor, v.Patch)]. *)
Definition Core (v : t) : string :=
  fmtInteger (Major v) ++ "." ++ fmtInteger (Minor v) ++ "."
    ++ fmtInteger (Patch v).

Definition Short (v : t) : string :=
  if negb (PreRelease v =? "")
  then fmtInteger (Major v) ++ "." ++ fmtInteger (Minor v) ++ "."
         ++ fmtInteger (Patch v) ++ "-" ++ PreRelease v
  else fmtInteger (Major v) ++ "." ++ fmtInteger (Minor v) ++ "."
         ++ fmtInteger (Patch v).

Definition Equal (v v2 : t) : bool :=
  (Major v =? Major v2)%Z && (Minor v =? Minor v2)%Z
  && (Patch v =? Patch v2)%Z && (PreRelease v =? PreRelease v2)
  && (Build v =? Build v2).

(** The loop of [Compare] over the two field slices, from index [i].
    [fields[i]] is Go's checked indexing: [None] stands for the run-time
    panic of an index out of range (and for a loop that has not finished
    within [fuel] iterations), [Some r] for [return r]. *)
Fixpoint compareFields `{Arch} (fuel : nat) (fields1 fields2 : list string)
    (i : nat) : option Z :=
  if (i <? List.length fields1)%nat && (i <? List.length fields2)%nat then
    match fuel with
    | O => None
    | S fuel' =>
        match nth_error fields1 i, nth_error fields2 i with
        | Some f1, Some f2 =>
            match Atoi f1, Atoi f2 with
            | inl n1, inl n2 =>
                if (n1 <? n2)%Z then Some (-1)
                else if (n1 >? n2)%Z then Some 1
                else compareFields fuel' fields1 fields2 (S i)
            | inl _, inr _ => Some (-1)
            | inr _, inl _ => Some 1
            | inr _, inr _ =>
                if lt f1 f2 then Some (-1)
                else if gt f1 f2 then Some 1
                else compareFields fuel' fields1 fields2 (S i)
            end
        | _, _ => None
        end
    end
  else if (List.length fields1 <? List.length fields2)%nat then Some (-1)
  else if (List.length fields2 <? List.length fields1)%nat then Some 1
  else Some 0.

Definition Compare `{Arch} (v v2 : t) : option Z :=
  if (Major v <? Major v2)%Z then Some (-1)
  else if (Major v >? Major v2)%Z then Some 1
  else if (Minor v <? Minor v2)%Z then Some (-1)
  else if (Minor v >? Minor v2)%Z then Some 1
  else if (Patch v <? Patch v2)%Z then Some (-1)
  else if (Patch v >? Patch v2)%Z then Some 1
  else if (PreRelease v =? "") && negb (PreRelease v2 =? "") then Some 1
  else if negb (PreRelease v =? "") && (PreRelease v2 =? "") then Some (-1)
  else
    let fields1 := Split (PreRelease v) "." in
    let fields2 := Split (PreRelease v2) "." in
    compareFields (List.length fields1) fields1 fields2 0.

(** [v == Version{}]. *)
Definition IsZero (v : t) : bool :=
  (Major v =? 0)%Z && (Minor v =? 0)%Z && (Patch v =? 0)%Z
  && (PreRelease v =? "") && (Build v =? "").

Definition Less `{Arch} (v v2 : t) : option bool :=
  match Compare v v2 with
  | Some r => Some (r <? 0)%Z
  | None => None
  end.

Definition String (v : t) : string :=
  let hasPreRelease := negb (PreRelease v =? "") in
  let hasBuild := negb (Build v =? "") in
  if hasPreRelease && hasBuild
  then fmtInteger (Major v) ++ "." ++ fmtInteger (Minor v) ++ "."
         ++ fmtInteger (Patch v) ++ "-" ++ PreRelease v ++ "+" ++ Build v
  else if hasPreRelease && negb hasBuild
  then fmtInteger (Major v) ++ "." ++ fmtInteger (Minor v) ++ "."
         ++ fmtInteger (Patch v) ++ "-" ++ PreRelease v
  else if negb hasPreRelease && hasBuild
  then fmtInteger (Major v) ++ "." ++ fmtInteger (Minor v) ++ "."
         ++ fmtInteger (Patch v) ++ "+" ++ Build v
  else fmtInteger (Major v) ++ "." ++ fmtInteger (Minor v) ++ "."
         ++ fmtInteger (Patch v).

End Version.

(** ** Build provenance *)

Module Debug.

Record BuildSetting := { Key : string; Value : string }.

(** What [debug.ReadBuildInfo] yields: [None] when the binary carries no
    build information ([ok == false]). *)
Record BuildInfo := { Settings : list BuildSetting }.

End Debug.

(** commit_hash.go *)
Module CommitHash.

Import Debug.

(** One iteration of the loop over [info.Settings]: the state is
    [(commitHash, dirtyWorkingDirectory)]. *)
Definition scan (st : string * bool) (setting : BuildSetting)
    : string * bool :=
  if Key setting =? "vcs.modified" then (fst st, Value setting =? "true")
  else if Key setting =? "vcs.revision" then
    (if (7 <? String.length (Value setting))%nat
     then substring 0 7 (Value setting) else Value setting, snd st)
  else st.

Definition Commit (readBuildInfo : option BuildInfo) : string :=
  let '(commitHash, dirtyWorkingDirectory) :=
    match readBuildInfo with
    | Some info => fold_left scan (Settings info) ("", false)
    | None => ("", false)
    end in
  if negb (commitHash =? "") && dirtyWorkingDirectory then
    if dirtyWorkingDirectory then commitHash ++ "-dirty" else commitHash
  else if dirtyWorkingDirectory then "dirty"
  else "".

End CommitHash.

(** The second variant of commit_hash.go, which keeps the value of
    [vcs.modified] as a string. *)
Module CommitHashString.

Import Debug.

Definition scan (st : string * string) (setting : BuildSetting)
    : string * string :=
  if Key setting =? "vcs.modified" then (fst st, Value setting)
  else if Key setting =? "vcs.revision" then
    (if (7 <? String.length (Value setting))%nat
     then substring 0 7 (Value setting) else Value setting, snd st)
  else st.

Definition Commit (readBuildInfo : option BuildInfo) : string :=
  let '(commitHash, dirtyWorkingDirectory) :=
    match readBuildInfo with
    | Some info => fold_left scan (Settings info) ("", "")
    | None => ("", "")
    end in
  if negb (commitHash =? "") && negb (dirtyWorkingDirectory =? "")
  then commitHash ++ "-dirty"
  else if negb (commitHash =? "") then commitHash
  else if negb (dirtyWorkingDirectory =? "") then "*-dirty"
  else "".

End CommitHashString.

(** ** The precedence rule as the specification words it

    The staged rule of the specification, written over three-way results of
    type [comparison] and turned into [-1], [0], [+1] by [sign].  It is the
    reference the loop of [Version.Compare] is compared with. *)

Module Spec.

Import Strings Strconv.

Definition sign (c : comparison) : Z :=
  match c with Lt => -1 | Eq => 0 | Gt => 1 end.

(** First [c], and [d] only where [c] ties. *)
Definition andThen {A : Type} (c d : A -> A -> comparison) (x y : A)
    : comparison :=
  match c x y with Eq => d x y | r => r end.

(** Two identifiers: numerically when both parse as integers, the numeric
    one lower when exactly one parses, byte-wise otherwise. *)
Definition identifierOrder `{Arch} (x y : string) : comparison :=
  match Atoi x, Atoi y with
  | inl n1, inl n2 => (n1 ?= n2)%Z
  | inl _, inr _ => Lt
  | inr _, inl _ => Gt
  | inr _, inr _ => String.compare x y
  end.

(** Two identifier sequences: index by index up to the shorter length,
    then the one with fewer identifiers is lower. *)
Fixpoint sequenceOrder `{Arch} (l1 l2 : list string) : comparison :=
  match l1, l2 with
  | [], [] => Eq
  | [], _ :: _ => Lt
  | _ :: _, [] => Gt
  | x :: l1', y :: l2' =>
      match identifierOrder x y with
      | Eq => sequenceOrder l1' l2'
      | r => r
      end
  end.

(** The pre-release rule. *)
Definition preReleaseOrder `{Arch} (a b : Version.t) : comparison :=
  match Version.PreRelease a =? "", Version.PreRelease b =? "" with
  | true, true => Eq
  | true, false => Gt
  | false, true => Lt
  | false, false =>
      sequenceOrder (Split (Version.PreRelease a) ".") (Split (Version.PreRelease b) ".")
  end.

Definition by_field (f : Version.t -> Z) (a b : Version.t) : comparison :=
  (f a ?= f b)%Z.

(** Major, then Minor, then Patch, then the pre-release rule. *)
Definition precedenceOrder `{Arch} : Version.t -> Version.t -> comparison :=
  andThen (by_field Version.Major)
    (andThen (by_field Version.Minor)
       (andThen (by_field Version.Patch) preReleaseOrder)).

Definition precedence `{Arch} (a b : Version.t) : Z :=
  sign (precedenceOrder a b).

(** What makes a three-way comparison an ordering by precedence. *)
Record ThreeWay {A : Type} (c : A -> A -> comparison) : Prop := {
  tw_antisym : forall x y, c y x = CompOpp (c x y);
  tw_tie : forall x y z, c x y = Eq -> c x z = c y z;
  tw_lt : forall x y z, c x y = Lt -> c y z = Lt -> c x z = Lt
}.

(** An identifier made of decimal digits only, and its value. *)
Definition allDigits (s : string) : bool :=
  negb (s =? "") && forallb isDigit (list_ascii_of_string s).

Definition decimalValue (s : string) : Z :=
  fold_left (fun n c => n * 10 + digitVal c)%Z (list_ascii_of_string s) 0%Z.

Definition maxInt `{Arch} : Z := (2 ^ (intSize - 1) - 1)%Z.

(** A decimal numeral padded with zeros: a ["0"] followed by more. *)
Definition zeroPadded (s : string) : bool :=
  match s with
  | String c (String _ _) => Ascii.eqb c "0"
  | _ => false
  end.

(** The same version with another build metadata. *)
Definition withBuild (v : Version.t) (build : string) : Version.t :=
  Version.mk (Version.Major v) (Version.Minor v) (Version.Patch v)
    (Version.PreRelease v) build.

End Spec.

(** ** Sample values *)

(** Versions that agree on everything but Build. *)
Definition same_precedence_fields (a b : Version.t) : Prop :=
  Version.Major a = Version.Major b /\ Version.Minor a = Version.Minor b
  /\ Version.Patch a = Version.Patch b
  /\ Version.PreRelease a = Version.PreRelease b.

(** The versions of the precedence example of the Semantic Versioning
    document. *)
Definition alpha := Version.mk 1 0 0 "alpha" "".
Definition alpha_1 := Version.mk 1 0 0 "alpha.1" "".
Definition alpha_beta := Version.mk 1 0 0 "alpha.beta" "".
Definition beta := Version.mk 1 0 0 "beta" "".
Definition beta_2 := Version.mk 1 0 0 "beta.2" "".
Definition beta_11 := Version.mk 1 0 0 "beta.11" "".
Definition rc_1 := Version.mk 1 0 0 "rc.1" "".
Definition release := Version.mk 1 0 0 "" "".

(** Build settings as the Go tool chain records them: a clean checkout,
    a modified one, and a build that records the revision only. *)
Definition revision := "3f2a9c41d7e05b6a8c9d0e1f2a3b4c5d6e7f8091".

Definition cleanBuild : Debug.BuildInfo :=
  {| Debug.Settings :=
       [ {| Debug.Key := "vcs"; Debug.Value := "git" |};
         {| Debug.Key := "vcs.revision"; Debug.Value := revision |};
         {| Debug.Key := "vcs.time"; Debug.Value := "2025-01-29T10:00:00Z" |};
         {| Debug.Key := "vcs.modified"; Debug.Value := "false" |} ] |}.

Definition dirtyBuild : Debug.BuildInfo :=
  {| Debug.Settings :=
       [ {| Debug.Key := "vcs"; Debug.Value := "git" |};
         {| Debug.Key := "vcs.revision"; Debug.Value := revision |};
         {| Debug.Key := "vcs.time"; Debug.Value := "2025-01-29T10:00:00Z" |};
         {| Debug.Key := "vcs.modified"; Debug.Value := "true" |} ] |}.

Definition revisionOnly : Debug.BuildInfo :=
  {| Debug.Settings :=
       [ {| Debug.Key := "vcs.revision"; Debug.Value := revision |} ] |}.

(** ** ByVersion *)

Module ByVersion.

(** A slice of versions, [[]Version].  The slice is updated in place by
    [Swap]; the model returns the slice after the call.  Indices are Go
    [int]s, and [v[i]] is checked: [None] stands for the run-time panic of
    an index out of range. *)
Definition t := list Version.t.

Definition index (v : t) (i : Z) : option Version.t :=
  if (i <? 0)%Z then None else nth_error v (Z.to_nat i).

(** [v[i] = x], for an index already checked. *)
Fixpoint store (v : t) (i : nat) (x : Version.t) : t :=
  match v, i with
  | [], _ => []
  | _ :: rest, O => x :: rest
  | y :: rest, S i' => y :: store rest i' x
  end.

Definition Len (v : t) : Z := Z.of_nat (List.length v).

Definition Less `{Arch} (v : t) (i j : Z) : option bool :=
  match index v i, index v j with
  | Some vi, Some vj =>
      match Version.Compare vi vj with
      | Some r => Some (r <? 0)%Z
      | None => None
      end
  | _, _ => None
  end.

(** [v[i], v[j] = v[j], v[i]]: both right-hand sides are read, then the
    two elements are written, left to right. *)
Definition Swap (v : t) (i j : Z) : option t :=
  match index v j, index v i with
  | Some vj, Some vi =>
      Some (store (store v (Z.to_nat i) vj) (Z.to_nat j) vi)
  | _, _ => None
  end.

End ByVersion.

(** ** The version of the package *)

Module Package.

(** [Current()]: the build metadata is what the package's [Commit]
    returns; the package is built with one of the two variants of
    commit_hash.go, so [Commit] is an argument here. *)
Definition Current (Commit : option Debug.BuildInfo -> string)
    (readBuildInfo : option Debug.BuildInfo) : Version.t :=
  Version.mk 0 3 0 "" (Commit readBuildInfo).

End Package.

(** ** Notions used by the properties *)

(** The zero value [Version{}]. *)
Definition zeroVersion : Version.t := Version.mk 0 0 0 "" "".

(** The same version with another pre-release. *)
Definition withPreRelease (v : Version.t) (pre : string) : Version.t :=
  Version.mk (Version.Major v) (Version.Minor v) (Version.Patch v) pre
    (Version.Build v).

(** The value of the last setting with a key, if there is one. *)
Fixpoint lastValue (key : string) (settings : list Debug.BuildSetting)
    : option string :=
  match settings with
  | [] => None
  | setting :: rest =>
      match lastValue key rest with
      | Some value => Some value
      | None =>
          if Debug.Key setting =? key then Some (Debug.Value setting)
          else None
      end
  end.

(** At most the first seven bytes of a revision. *)
Definition shortRevision (value : string) : string :=
  if (7 <? String.length value)%nat then substring 0 7 value else value.

(** The settings Commit reads. *)
Definition vcsKey (key : string) : bool :=
  (key =? "vcs.modified") || (key =? "vcs.revision").

(** A number that fits the platform's [int]. *)
Definition fitsInt `{Arch} (n : Z) : Prop :=
  (- 2 ^ (intSize - 1) <= n <= 2 ^ (intSize - 1) - 1)%Z.

(** Two identifiers the pre-release walk does not tell apart: the same
    string, or two strings that parse to the same integer. *)
Definition identifierTie `{Arch} (x y : string) : Prop :=
  x = y \/ exists n : Z, Strconv.Atoi x = inl n /\ Strconv.Atoi y = inl n.

Definition same_core_triple (a b : Version.t) : Prop :=
  Version.Major a = Version.Major b /\ Version.Minor a = Version.Minor b
  /\ Version.Patch a = Version.Patch b.

(** A string that begins with a decimal digit. *)
Definition startsWithDigit (s : string) : bool :=
  match s with
  | String c _ => Strconv.isDigit c
  | EmptyString => false
  end.

(** The value of the last setting with a key, [""] when there is none. *)
Definition lastSetting (key : string) (info : Debug.BuildInfo) : string :=
  match lastValue key (Debug.Settings info) with
  | Some value => value
  | None => ""
  end.

(** * Properties *)

Import Strings Strconv Fmt Spec.

(** ** Three-way comparisons *)

Section ThreeWayFacts.

Context {A : Type}.

Lemma tw_tie_r (c : A -> A -> comparison) :
  ThreeWay c -> forall x y z, c x y = Eq -> c z x = c z y.
Proof.
  intros T x y z E.
  rewrite (tw_antisym c T x z), (tw_antisym c T y z).
  now rewrite (tw_tie c T x y z E).
Qed.

Lemma tw_refl (c : A -> A -> comparison) :
  ThreeWay c -> forall x, c x x = Eq.
Proof.
  intros T x. pose proof (tw_antisym c T x x) as E.
  destruct (c x x); simpl in E; congruence.
Qed.

Lemma tw_gt (c : A -> A -> comparison) :
  ThreeWay c -> forall x y z, c x y = Gt -> c y z = Gt -> c x z = Gt.
Proof.
  intros T x y z E1 E2.
  assert (L1 : c y x = Lt) by (rewrite (tw_antisym c T x y), E1; reflexivity).
  assert (L2 : c z y = Lt) by (rewrite (tw_antisym c T y z), E2; reflexivity).
  rewrite (tw_antisym c T z x), (tw_lt c T z y x L2 L1). reflexivity.
Qed.

(** The order induced by a three-way comparison is transitive. *)
Lemma tw_le_trans (c : A -> A -> comparison) :
  ThreeWay c ->
  forall x y z, c x y <> Gt -> c y z <> Gt -> c x z <> Gt.
Proof.
  intros T x y z H1 H2.
  destruct (c x y) eqn:E1; [ | | congruence].
  - now rewrite (tw_tie c T x y z E1).
  - destruct (c y z) eqn:E2; [ | | congruence].
    + rewrite <- (tw_tie_r c T y z x E2), E1. discriminate.
    + rewrite (tw_lt c T x y z E1 E2). discriminate.
Qed.

Lemma andThen_ThreeWay (c d : A -> A -> comparison) :
  ThreeWay c -> ThreeWay d -> ThreeWay (andThen c d).
Proof.
  intros Tc Td. unfold andThen. split.
  - intros x y. rewrite (tw_antisym c Tc x y).
    destruct (c x y); simpl; trivial. apply (tw_antisym d Td).
  - intros x y z. destruct (c x y) eqn:E; try discriminate.
    intros Ed. rewrite (tw_tie c Tc x y z E).
    destruct (c y z); trivial. now apply (tw_tie d Td).
  - intros x y z.
    destruct (c x y) eqn:E1; try discriminate; intros H1;
      destruct (c y z) eqn:E2; try discriminate; intros H2.
    + rewrite (tw_tie c Tc x y z E1), E2. now apply (tw_lt d Td x y z).
    + now rewrite (tw_tie c Tc x y z E1), E2.
    + now rewrite <- (tw_tie_r c Tc y z x E2), E1.
    + now rewrite (tw_lt c Tc x y z E1 E2).
Qed.

End ThreeWayFacts.

Lemma Z_compare_ThreeWay : ThreeWay Z.compare.
Proof.
  split.
  - intros x y. apply Z.compare_antisym.
  - intros x y z E. apply Z.compare_eq in E. now subst.
  - intros x y z. rewrite !Z.compare_lt_iff. lia.
Qed.

Lemma by_field_ThreeWay (f : Version.t -> Z) : ThreeWay (by_field f).
Proof.
  destruct Z_compare_ThreeWay as [Ha Ht Hl]. unfold by_field. split.
  - intros x y. apply Ha.
  - intros x y z. apply Ht.
  - intros x y z. apply Hl.
Qed.

Lemma ascii_compare_lt_trans (a b c : ascii) :
  Ascii.compare a b = Lt -> Ascii.compare b c = Lt -> Ascii.compare a c = Lt.
Proof. unfold Ascii.compare. rewrite !N.compare_lt_iff. lia. Qed.

Lemma string_compare_lt_trans (s1 : string) :
  forall s2 s3, String.compare s1 s2 = Lt -> String.compare s2 s3 = Lt ->
    String.compare s1 s3 = Lt.
Proof.
  induction s1 as [|a s1 IH]; intros [|b s2] [|c s3]; simpl;
    try discriminate; trivial.
  destruct (Ascii.compare a b) eqn:E1; try discriminate; intros H1;
    destruct (Ascii.compare b c) eqn:E2; try discriminate; intros H2.
  - apply Ascii.compare_eq_iff in E1, E2. subst.
    assert (R : Ascii.compare c c = Eq)
      by (unfold Ascii.compare; apply N.compare_refl).
    rewrite R. now apply (IH s2).
  - apply Ascii.compare_eq_iff in E1. subst. now rewrite E2.
  - apply Ascii.compare_eq_iff in E2. subst. now rewrite E1.
  - now rewrite (ascii_compare_lt_trans a b c E1 E2).
Qed.

Lemma string_compare_ThreeWay : ThreeWay String.compare.
Proof.
  split.
  - intros x y. apply String.compare_antisym.
  - intros x y z E. apply String.compare_eq_iff in E. now subst.
  - intros x y z. apply string_compare_lt_trans.
Qed.

(** ** The precedence rule is an ordering *)

Section Precedence.

Context `{Arch}.

Lemma identifierOrder_ThreeWay : ThreeWay identifierOrder.
Proof.
  destruct Z_compare_ThreeWay as [Za Zt Zl].
  destruct string_compare_ThreeWay as [Sa St Sl].
  unfold identifierOrder. split.
  - intros x y. destruct (Atoi x), (Atoi y); simpl; auto.
  - intros x y z. destruct (Atoi x) eqn:Ex, (Atoi y) eqn:Ey;
      try discriminate; intros E.
    + destruct (Atoi z); auto.
    + apply String.compare_eq_iff in E. subst y. reflexivity.
  - intros x y z. destruct (Atoi x), (Atoi y), (Atoi z);
      try discriminate; eauto.
Qed.

Lemma sequenceOrder_antisym (l1 : list string) :
  forall l2, sequenceOrder l2 l1 = CompOpp (sequenceOrder l1 l2).
Proof.
  induction l1 as [|x l1 IH]; intros [|y l2]; simpl; trivial.
  rewrite (tw_antisym _ identifierOrder_ThreeWay x y).
  destruct (identifierOrder x y); simpl; auto.
Qed.

Lemma sequenceOrder_tie (l1 : list string) :
  forall l2 l3, sequenceOrder l1 l2 = Eq ->
    sequenceOrder l1 l3 = sequenceOrder l2 l3.
Proof.
  induction l1 as [|x l1 IH]; intros [|y l2] l3; simpl;
    try discriminate; trivial.
  destruct (identifierOrder x y) eqn:E; try discriminate. intros E'.
  destruct l3 as [|z l3]; trivial.
  rewrite (tw_tie _ identifierOrder_ThreeWay x y z E).
  destruct (identifierOrder y z); auto.
Qed.

Lemma sequenceOrder_lt (l1 : list string) :
  forall l2 l3, sequenceOrder l1 l2 = Lt -> sequenceOrder l2 l3 = Lt ->
    sequenceOrder l1 l3 = Lt.
Proof.
  pose proof identifierOrder_ThreeWay as T.
  induction l1 as [|x l1 IH]; intros [|y l2] [|z l3]; simpl;
    try discriminate; trivial.
  destruct (identifierOrder x y) eqn:E1; try discriminate; intros H1;
    destruct (identifierOrder y z) eqn:E2; try discriminate; intros H2.
  - rewrite (tw_tie _ T x y z E1), E2. eauto.
  - now rewrite (tw_tie _ T x y z E1), E2.
  - now rewrite <- (tw_tie_r _ T y z x E2), E1.
  - now rewrite (tw_lt _ T x y z E1 E2).
Qed.

Lemma sequenceOrder_ThreeWay : ThreeWay sequenceOrder.
Proof.
  split.
  - intros x y. apply sequenceOrder_antisym.
  - intros x y z. apply sequenceOrder_tie.
  - intros x y z. apply sequenceOrder_lt.
Qed.

Lemma preReleaseOrder_ThreeWay : ThreeWay preReleaseOrder.
Proof.
  destruct sequenceOrder_ThreeWay as [Qa Qt Ql].
  unfold preReleaseOrder. split.
  - intros x y.
    destruct (Version.PreRelease x =? ""), (Version.PreRelease y =? "");
      simpl; auto.
  - intros x y z.
    destruct (Version.PreRelease x =? ""), (Version.PreRelease y =? "");
      try discriminate; trivial.
    destruct (Version.PreRelease z =? ""); auto.
  - intros x y z.
    destruct (Version.PreRelease x =? ""), (Version.PreRelease y =? ""),
      (Version.PreRelease z =? ""); try discriminate; eauto.
Qed.

Lemma precedenceOrder_ThreeWay : ThreeWay precedenceOrder.
Proof.
  unfold precedenceOrder.
  repeat apply andThen_ThreeWay; auto using by_field_ThreeWay.
  apply preReleaseOrder_ThreeWay.
Qed.

End Precedence.

(** ** The loop of Compare against the rule *)

Lemma skipn_nth_error {A : Type} (l : list A) :
  forall i x, nth_error l i = Some x -> skipn i l = x :: skipn (S i) l.
Proof.
  induction l as [|a l IH]; intros [|i] x; simpl; try discriminate.
  - now intros [= ->].
  - intros E. now apply IH.
Qed.

Lemma skipn_nil_iff {A : Type} (l : list A) (i : nat) :
  skipn i l = [] <-> (List.length l <= i)%nat.
Proof.
  split; intros E.
  - apply (f_equal (@List.length A)) in E. rewrite List.length_skipn in E.
    simpl in E. lia.
  - now apply List.skipn_all2.
Qed.

Section Loop.

Context `{Arch}.

Lemma compareFields_sequenceOrder (fuel : nat) :
  forall (fields1 fields2 : list string) (i : nat),
    (i <= List.length fields1)%nat -> (i <= List.length fields2)%nat ->
    (List.length fields1 - i <= fuel)%nat ->
    Version.compareFields fuel fields1 fields2 i
    = Some (sign (sequenceOrder (skipn i fields1) (skipn i fields2))).
Proof.
  assert (Exit : forall l1 l2 i,
    (i <= List.length l1)%nat -> (i <= List.length l2)%nat ->
    (List.length l1 <= i \/ List.length l2 <= i)%nat ->
    (if (List.length l1 <? List.length l2)%nat then Some (-1)%Z
     else if (List.length l2 <? List.length l1)%nat then Some 1%Z
     else Some 0%Z)
    = Some (sign (sequenceOrder (skipn i l1) (skipn i l2)))).
  { intros l1 l2 i B1 B2 E.
    destruct (skipn i l1) as [|x r1] eqn:S1;
      destruct (skipn i l2) as [|y r2] eqn:S2;
      try (apply skipn_nil_iff in S1); try (apply skipn_nil_iff in S2);
      try (assert (List.length l1 <= i -> False)%nat
             by (intros L; apply skipn_nil_iff in L; congruence));
      try (assert (List.length l2 <= i -> False)%nat
             by (intros L; apply skipn_nil_iff in L; congruence));
      cbn [sequenceOrder sign];
      destruct (Nat.ltb_spec (List.length l1) (List.length l2));
      destruct (Nat.ltb_spec (List.length l2) (List.length l1));
      trivial; lia. }
  induction fuel as [|fuel IH]; intros l1 l2 i B1 B2 F;
    cbn [Version.compareFields];
    destruct (Nat.ltb_spec i (List.length l1)) as [I1|I1];
    destruct (Nat.ltb_spec i (List.length l2)) as [I2|I2];
    cbn [andb]; try (apply Exit; lia); try lia.
  destruct (nth_error l1 i) as [f1|] eqn:N1;
    [ | apply nth_error_None in N1; lia ].
  destruct (nth_error l2 i) as [f2|] eqn:N2;
    [ | apply nth_error_None in N2; lia ].
  rewrite (skipn_nth_error l1 i f1 N1), (skipn_nth_error l2 i f2 N2).
  cbn [sequenceOrder]. unfold identifierOrder.
  destruct (Atoi f1) as [n1|e1], (Atoi f2) as [n2|e2]; trivial.
  - unfold Z.ltb, Z.gtb. destruct (n1 ?= n2)%Z; trivial.
    apply IH; lia.
  - unfold lt, gt. destruct (String.compare f1 f2); trivial.
    apply IH; lia.
Qed.

(** The code computes the rule, on every pair of versions. *)
Lemma Compare_precedence (a b : Version.t) :
  Version.Compare a b = Some (precedence a b).
Proof.
  unfold Version.Compare, precedence, precedenceOrder, andThen, by_field,
    Z.ltb, Z.gtb.
  destruct (Version.Major a ?= Version.Major b)%Z; trivial.
  destruct (Version.Minor a ?= Version.Minor b)%Z; trivial.
  destruct (Version.Patch a ?= Version.Patch b)%Z; trivial.
  unfold preReleaseOrder.
  destruct (Version.PreRelease a =? "") eqn:Ea;
    destruct (Version.PreRelease b =? "") eqn:Eb; cbn [andb negb]; trivial.
  - apply String.eqb_eq in Ea, Eb. rewrite Ea, Eb. reflexivity.
  - apply compareFields_sequenceOrder; lia.
Qed.

End Loop.

(** ** Consequences for Compare *)

Lemma sign_values (c : comparison) : sign c = -1 \/ sign c = 0 \/ sign c = 1.
Proof. destruct c; simpl; auto. Qed.

Lemma sign_CompOpp (c : comparison) : sign (CompOpp c) = - sign c.
Proof. now destruct c. Qed.

Lemma sign_nonpos (c : comparison) : sign c <= 0 <-> c <> Gt.
Proof. destruct c; simpl; split; (lia || congruence). Qed.

Lemma sign_inj (c d : comparison) : sign c = sign d -> c = d.
Proof. destruct c, d; simpl; intros E; trivial; lia. Qed.

Section CompareFacts.

Context `{Arch}.

(** The rule reads the four precedence fields only. *)
Lemma precedenceOrder_fields (a b a' b' : Version.t) :
  same_precedence_fields a a' -> same_precedence_fields b b' ->
  precedenceOrder a b = precedenceOrder a' b'.
Proof.
  intros (A1 & A2 & A3 & A4) (B1 & B2 & B3 & B4).
  unfold precedenceOrder, andThen, by_field, preReleaseOrder.
  now rewrite A1, A2, A3, A4, B1, B2, B3, B4.
Qed.

Lemma precedenceOrder_same_fields (a b : Version.t) :
  same_precedence_fields a b -> precedenceOrder a b = Eq.
Proof.
  intros S.
  rewrite (precedenceOrder_fields a b a a); trivial.
  - apply (tw_refl _ precedenceOrder_ThreeWay).
  - unfold same_precedence_fields; tauto.
  - unfold same_precedence_fields in *; intuition congruence.
Qed.

(** With the core triples tied, the pre-release rule decides. *)
Lemma precedenceOrder_tied_triple (a b : Version.t) :
  Version.Major a = Version.Major b -> Version.Minor a = Version.Minor b ->
  Version.Patch a = Version.Patch b ->
  precedenceOrder a b = preReleaseOrder a b.
Proof.
  intros E1 E2 E3. unfold precedenceOrder, andThen, by_field.
  now rewrite E1, E2, E3, !Z.compare_refl.
Qed.

Lemma sequenceOrder_tied_prefix (pre1 pre2 l1 l2 : list string) :
  Forall2 (fun x y => identifierOrder x y = Eq) pre1 pre2 ->
  sequenceOrder (pre1 ++ l1)%list (pre2 ++ l2)%list = sequenceOrder l1 l2.
Proof.
  induction 1 as [|x y pre1 pre2 E _ IH]; trivial.
  cbn [app sequenceOrder]. now rewrite E.
Qed.

(** The decision at the first index whose identifiers do not tie. *)
Lemma precedenceOrder_at_index (a b : Version.t)
    (pre1 pre2 rest1 rest2 : list string) (f1 f2 : string) :
  Version.Major a = Version.Major b -> Version.Minor a = Version.Minor b ->
  Version.Patch a = Version.Patch b ->
  Version.PreRelease a <> "" -> Version.PreRelease b <> "" ->
  Split (Version.PreRelease a) "." = (pre1 ++ f1 :: rest1)%list ->
  Split (Version.PreRelease b) "." = (pre2 ++ f2 :: rest2)%list ->
  Forall2 (fun x y => identifierOrder x y = Eq) pre1 pre2 ->
  identifierOrder f1 f2 <> Eq ->
  precedenceOrder a b = identifierOrder f1 f2.
Proof.
  intros E1 E2 E3 N1 N2 S1 S2 T D.
  rewrite precedenceOrder_tied_triple by assumption.
  unfold preReleaseOrder.
  apply String.eqb_neq in N1, N2. rewrite N1, N2, S1, S2.
  rewrite sequenceOrder_tied_prefix by assumption.
  cbn [sequenceOrder]. now destruct (identifierOrder f1 f2).
Qed.

End CompareFacts.

(** The chain of the Semantic Versioning document, in ascending order. *)
Example Compare_chain :
  map (fun p => @Version.Compare amd64 (fst p) (snd p))
    [(alpha, alpha_1); (alpha_1, alpha_beta); (alpha_beta, beta);
     (beta, beta_2); (beta_2, beta_11); (beta_11, rc_1); (rc_1, release)]
  = repeat (Some (-1)) 7.
Proof. reflexivity. Qed.

(** C1: Compare returns -1, 0 or +1 and computes the staged rule: Major,
    Minor, Patch numerically in that order, then the pre-release rule (both
    empty tie; both non-empty are split on '.' and walked index by index,
    integers numerically, an integer below a non-integer, non-integers
    byte-wise; on a tie of the common indices the shorter sequence is
    lower and equal lengths tie). *)
Theorem Compare_staged_rule (arch : Arch) (a b : Version.t) :
  Version.Compare a b = Some (precedence a b)
  /\ (precedence a b = -1 \/ precedence a b = 0 \/ precedence a b = 1).
Proof.
  split.
  - apply Compare_precedence.
  - apply sign_values.
Qed.

(** C2: Compare is antisymmetric, compare(a,b) = -compare(b,a), and
    compare(a,a) = 0. *)
Theorem Compare_antisymmetric (arch : Arch) (a b : Version.t) :
  (exists x, Version.Compare a b = Some x /\ Version.Compare b a = Some (- x))
  /\ Version.Compare a a = Some 0.
Proof.
  split.
  - exists (precedence a b). rewrite !Compare_precedence. split; trivial.
    unfold precedence.
    now rewrite (tw_antisym _ precedenceOrder_ThreeWay a b), sign_CompOpp.
  - rewrite Compare_precedence. unfold precedence.
    now rewrite (tw_refl _ precedenceOrder_ThreeWay).
Qed.

(** C3: the order induced by Compare is transitive: compare(a,b) <= 0 and
    compare(b,c) <= 0 give compare(a,c) <= 0. *)
Theorem Compare_transitive (arch : Arch) (a b c : Version.t) (x y : Z) :
  Version.Compare a b = Some x -> Version.Compare b c = Some y ->
  x <= 0 -> y <= 0 ->
  exists z, Version.Compare a c = Some z /\ z <= 0.
Proof.
  rewrite !Compare_precedence. intros [= <-] [= <-] X Y.
  exists (precedence a c). split; trivial.
  unfold precedence in *.
  apply (proj2 (sign_nonpos (precedenceOrder a c))).
  exact (tw_le_trans _ precedenceOrder_ThreeWay a b c
           (proj1 (sign_nonpos _) X) (proj1 (sign_nonpos _) Y)).
Qed.

Lemma Compare_transitive_witness :
  exists z, @Version.Compare amd64 alpha_1 beta_11 = Some z /\ z <= 0.
Proof.
  apply (Compare_transitive amd64 alpha_1 alpha_beta beta_11 (-1) (-1));
    (reflexivity || lia).
Defined.

(** C4: a version without pre-release outranks every version with the
    same core triple and a pre-release: Compare gives +1 from its side and
    -1 from the other side. *)
Theorem Compare_release_above_prerelease (arch : Arch) (a b : Version.t) :
  Version.Major a = Version.Major b -> Version.Minor a = Version.Minor b ->
  Version.Patch a = Version.Patch b ->
  Version.PreRelease a = "" -> Version.PreRelease b <> "" ->
  Version.Compare a b = Some 1 /\ Version.Compare b a = Some (-1).
Proof.
  intros E1 E2 E3 Ea Nb. rewrite !Compare_precedence. unfold precedence.
  rewrite (precedenceOrder_tied_triple a b), (precedenceOrder_tied_triple b a)
    by congruence.
  unfold preReleaseOrder. apply String.eqb_neq in Nb. rewrite Ea, Nb.
  split; reflexivity.
Qed.

Lemma Compare_release_above_prerelease_witness :
  @Version.Compare amd64 release rc_1 = Some 1
  /\ @Version.Compare amd64 rc_1 release = Some (-1).
Proof.
  apply (Compare_release_above_prerelease amd64 release rc_1);
    (reflexivity || discriminate).
Defined.

(** C5: versions that differ only in Build compare as 0, and replacing the
    Build of either argument never changes the result of Compare. *)
Theorem Compare_ignores_Build (arch : Arch) (a b : Version.t) :
  (same_precedence_fields a b -> Version.Compare a b = Some 0)
  /\ (forall s t : string,
        Version.Compare (withBuild a s) (withBuild b t)
        = Version.Compare a b).
Proof.
  split.
  - intros S. rewrite Compare_precedence. unfold precedence.
    now rewrite precedenceOrder_same_fields.
  - intros s t. reflexivity.
Qed.

Lemma Compare_ignores_Build_witness :
  @Version.Compare amd64 (Version.mk 1 0 0 "rc.1" "build1")
    (Version.mk 1 0 0 "rc.1" "build2") = Some 0.
Proof.
  apply (proj1 (Compare_ignores_Build amd64
                  (Version.mk 1 0 0 "rc.1" "build1")
                  (Version.mk 1 0 0 "rc.1" "build2"))).
  repeat split.
Defined.

(** C7: Equal holds exactly when the five fields are equal, and it is not
    the comparator: versions that agree on Major, Minor, Patch and
    PreRelease and differ in Build are not Equal although Compare
    gives 0. *)
Theorem Equal_is_content_equality (arch : Arch) (a b : Version.t) :
  (Version.Equal a b = true <-> a = b)
  /\ (same_precedence_fields a b -> Version.Build a <> Version.Build b ->
      Version.Equal a b = false /\ Version.Compare a b = Some 0).
Proof.
  assert (Eq5 : Version.Equal a b = true <-> a = b).
  { unfold Version.Equal. rewrite !andb_true_iff, !Z.eqb_eq, !String.eqb_eq.
    destruct a, b; simpl. split.
    - intros ((((-> & ->) & ->) & ->) & ->). reflexivity.
    - intros [= -> -> -> -> ->]. tauto. }
  split; trivial.
  intros S N. split.
  - apply not_true_is_false. intros E. apply Eq5 in E. subst b. now elim N.
  - rewrite Compare_precedence. unfold precedence.
    now rewrite precedenceOrder_same_fields.
Qed.

Lemma Equal_is_content_equality_witness :
  Version.Equal (Version.mk 1 0 0 "" "b1") (Version.mk 1 0 0 "" "b2") = false
  /\ @Version.Compare amd64 (Version.mk 1 0 0 "" "b1")
       (Version.mk 1 0 0 "" "b2") = Some 0.
Proof.
  apply (proj2 (Equal_is_content_equality amd64
                  (Version.mk 1 0 0 "" "b1") (Version.mk 1 0 0 "" "b2"))).
  - repeat split.
  - discriminate.
Defined.

(** ** Rendering *)

Lemma append_assoc (s1 s2 s3 : string) : (s1 ++ s2) ++ s3 = s1 ++ (s2 ++ s3).
Proof. induction s1 as [|c s1 IH]; simpl; congruence. Qed.

Lemma append_nil_r (s : string) : s ++ "" = s.
Proof. induction s as [|c s IH]; simpl; congruence. Qed.

Lemma parseDigits_app (s1 s2 : string) :
  forall n, parseDigits (s1 ++ s2) n
            = match parseDigits s1 n with
              | Some m => parseDigits s2 m
              | None => None
              end.
Proof.
  induction s1 as [|c s1 IH]; intros n; simpl; trivial.
  destruct (isDigit c); trivial.
Qed.

Lemma digitChar_digit (d : Z) :
  0 <= d <= 9 -> isDigit (digitChar d) = true /\ digitVal (digitChar d) = d.
Proof.
  intros B.
  assert (C : d = 0 \/ d = 1 \/ d = 2 \/ d = 3 \/ d = 4 \/ d = 5 \/ d = 6
              \/ d = 7 \/ d = 8 \/ d = 9) by lia.
  repeat (destruct C as [-> | C]; [ split; reflexivity | ]).
  subst d. split; reflexivity.
Qed.

Lemma digitChar_nonzero (d : Z) :
  1 <= d <= 9 -> Ascii.eqb (digitChar d) "0" = false.
Proof.
  intros B.
  assert (C : d = 1 \/ d = 2 \/ d = 3 \/ d = 4 \/ d = 5 \/ d = 6
              \/ d = 7 \/ d = 8 \/ d = 9) by lia.
  repeat (destruct C as [-> | C]; [ reflexivity | ]).
  subst d. reflexivity.
Qed.

Lemma fmtUint_acc (fuel : nat) :
  forall u acc, fmtUint fuel u acc = fmtUint fuel u "" ++ acc.
Proof.
  induction fuel as [|fuel IH]; intros u acc; simpl; trivial.
  destruct (10 <=? u)%Z; trivial.
  rewrite (IH _ (String _ acc)), (IH _ (String _ "")), append_assoc.
  reflexivity.
Qed.

(** The digit loop has fuel enough, and writes the decimal digits of its
    argument. *)
Lemma fmtUint_parseDigits (fuel : nat) :
  forall u, 0 <= u < 2 ^ Z.of_nat fuel ->
    parseDigits (fmtUint fuel u "") 0 = Some u.
Proof.
  induction fuel as [|fuel IH]; intros u B.
  - simpl in B. assert (u = 0) by lia. subst u. reflexivity.
  - cbn [fmtUint]. destruct (Z.leb_spec 10 u) as [L|L].
    + rewrite fmtUint_acc, parseDigits_app, IH.
      * cbn [parseDigits].
        destruct (digitChar_digit (u mod 10)) as [-> ->];
          [ pose proof (Z.mod_pos_bound u 10); lia | ].
        pose proof (Z.div_mod u 10). f_equal; lia.
      * rewrite Nat2Z.inj_succ, Z.pow_succ_r in B by lia.
        split; [ apply Z.div_pos; lia | ].
        apply Z.div_lt_upper_bound; lia.
    + cbn [parseDigits].
      destruct (digitChar_digit u) as [-> ->]; [ lia | ].
      f_equal; lia.
Qed.

(** No zero in front of a positive number. *)
Lemma fmtUint_head (fuel : nat) :
  forall u acc, 0 < u < 2 ^ Z.of_nat fuel ->
    exists c rest, fmtUint fuel u acc = String c rest
                   /\ Ascii.eqb c "0" = false.
Proof.
  induction fuel as [|fuel IH]; intros u acc B.
  - simpl in B. lia.
  - cbn [fmtUint]. destruct (Z.leb_spec 10 u) as [L|L].
    + apply IH. rewrite Nat2Z.inj_succ, Z.pow_succ_r in B by lia.
      split; [ apply Z.div_str_pos; lia | ].
      apply Z.div_lt_upper_bound; lia.
    + eexists _, _. split; [ reflexivity | ].
      apply digitChar_nonzero. lia.
Qed.

Lemma fmtInteger_fuel (u : Z) :
  0 <= u -> 0 <= u < 2 ^ Z.of_nat (S (Z.to_nat (Z.log2 u))).
Proof.
  intros B. split; trivial.
  rewrite Nat2Z.inj_succ, Z2Nat.id by apply Z.log2_nonneg.
  destruct (Z.eq_dec u 0) as [-> | N]; [ reflexivity | ].
  apply Z.log2_spec. lia.
Qed.

Lemma fmtInteger_sign (n : Z) :
  fmtInteger n = (if (n <? 0)%Z then "-" else "") ++ fmtInteger (Z.abs n).
Proof.
  unfold fmtInteger. rewrite Z.abs_idemp.
  destruct (Z.ltb_spec n 0) as [L|L];
    destruct (Z.ltb_spec (Z.abs n) 0) as [L'|L']; try lia; reflexivity.
Qed.

Lemma fmtInteger_parseDigits (n : Z) :
  0 <= n -> parseDigits (fmtInteger n) 0 = Some n.
Proof.
  intros B. unfold fmtInteger.
  destruct (Z.ltb_spec n 0) as [L|L]; [ lia | ].
  rewrite Z.abs_eq by trivial.
  apply fmtUint_parseDigits, fmtInteger_fuel, B.
Qed.

Lemma fmtInteger_not_padded (n : Z) :
  0 <= n -> zeroPadded (fmtInteger n) = false.
Proof.
  intros B. unfold fmtInteger.
  destruct (Z.ltb_spec n 0) as [L|L]; [ lia | ].
  rewrite Z.abs_eq by trivial.
  destruct (Z.eq_dec n 0) as [-> | N]; [ reflexivity | ].
  destruct (fmtUint_head (S (Z.to_nat (Z.log2 n))) n "") as (c & r & -> & E).
  - pose proof (fmtInteger_fuel n B). lia.
  - unfold zeroPadded. rewrite E. now destruct r.
Qed.

(** C8: the three renderers write MAJOR.MINOR.PATCH[-PRERELEASE][+BUILD]:
    Core is the three numbers in decimal without padding, joined by dots;
    Short adds "-PRERELEASE" exactly when PreRelease is not empty and never
    the build metadata; String adds to that "+BUILD" exactly when Build is
    not empty; PreRelease and Build are copied as they are.  For
    (1,0,0,"beta","0002") they give "1.0.0-beta+0002", "1.0.0-beta" and
    "1.0.0". *)
Theorem render_grammar (v : Version.t) :
  Version.Core v
  = fmtInteger (Version.Major v) ++ "." ++ fmtInteger (Version.Minor v)
      ++ "." ++ fmtInteger (Version.Patch v)
  /\ Version.Short v
     = Version.Core v
         ++ (if Version.PreRelease v =? "" then ""
             else "-" ++ Version.PreRelease v)
  /\ Version.String v
     = Version.Short v
         ++ (if Version.Build v =? "" then "" else "+" ++ Version.Build v)
  /\ (forall n : Z,
        fmtInteger n
        = (if (n <? 0)%Z then "-" else "") ++ fmtInteger (Z.abs n)
        /\ parseDigits (fmtInteger (Z.abs n)) 0 = Some (Z.abs n)
        /\ zeroPadded (fmtInteger (Z.abs n)) = false)
  /\ Version.String (Version.mk 1 0 0 "beta" "0002") = "1.0.0-beta+0002"
  /\ Version.Short (Version.mk 1 0 0 "beta" "0002") = "1.0.0-beta"
  /\ Version.Core (Version.mk 1 0 0 "beta" "0002") = "1.0.0".
Proof.
  split; [ reflexivity | ].
  split.
  { unfold Version.Short, Version.Core.
    destruct (Version.PreRelease v =? ""); cbn [negb].
    - now rewrite append_nil_r.
    - now rewrite !append_assoc. }
  split.
  { unfold Version.String, Version.Short.
    destruct (Version.PreRelease v =? ""), (Version.Build v =? "");
      cbn [negb andb]; rewrite ?append_nil_r, ?append_assoc; reflexivity. }
  split.
  { intros n. split; [ apply fmtInteger_sign | ].
    split.
    - apply fmtInteger_parseDigits, Z.abs_nonneg.
    - apply fmtInteger_not_padded, Z.abs_nonneg. }
  repeat split.
Qed.

(** ** Atoi on strings of digits *)

Lemma isDigit_not_sign (c : ascii) :
  isDigit c = true -> Ascii.eqb c "-" = false /\ Ascii.eqb c "+" = false.
Proof.
  destruct c as [[] [] [] [] [] [] [] []]; intros D;
    try discriminate D; split; reflexivity.
Qed.

Lemma parseDigits_decimal (s : string) :
  forallb isDigit (list_ascii_of_string s) = true ->
  forall n, parseDigits s n
            = Some (fold_left (fun n c => n * 10 + digitVal c)
                      (list_ascii_of_string s) n).
Proof.
  induction s as [|c s IH]; simpl; trivial.
  intros D n. apply andb_true_iff in D as [-> D]. now apply IH.
Qed.

(** On a string of digits Atoi succeeds exactly when the value fits the
    platform's int. *)
Lemma Atoi_allDigits `{Arch} (s : string) :
  allDigits s = true ->
  Atoi s = if (decimalValue s <=? maxInt)%Z then inl (decimalValue s)
           else inr ErrRange.
Proof.
  unfold allDigits, Atoi, ParseInt, decimalValue, maxInt.
  destruct s as [|c s]; [ discriminate | ]. cbn [String.eqb negb andb].
  intros D. pose proof (parseDigits_decimal _ D 0) as P.
  cbn [list_ascii_of_string forallb] in D.
  apply andb_true_iff in D as [Dc _].
  destruct (isDigit_not_sign c Dc) as [-> ->]. cbn [orb negb andb].
  rewrite P. set (n := fold_left _ _ _).
  destruct (Z.leb_spec n (2 ^ (intSize - 1) - 1));
    destruct (Z.geb_spec n (2 ^ (intSize - 1))); trivial; lia.
Qed.

(** C10: the integer test of the pre-release walk is strconv.Atoi on the
    platform's int.  For versions tied through Patch, at the first index
    whose identifiers differ, when both identifiers are strings of digits
    and at least one has a value beyond the largest int, that one fails
    the parse with a range error and counts as non-numeric: the one that
    still fits is ranked strictly lower, and when neither fits the two are
    compared as byte strings; the numeric values are not compared. *)
Theorem Compare_digits_beyond_int (arch : Arch) (a b : Version.t)
    (pre1 pre2 rest1 rest2 : list string) (f1 f2 : string) :
  Version.Major a = Version.Major b -> Version.Minor a = Version.Minor b ->
  Version.Patch a = Version.Patch b ->
  Version.PreRelease a <> "" -> Version.PreRelease b <> "" ->
  Split (Version.PreRelease a) "." = (pre1 ++ f1 :: rest1)%list ->
  Split (Version.PreRelease b) "." = (pre2 ++ f2 :: rest2)%list ->
  Forall2 (fun x y => identifierOrder x y = Eq) pre1 pre2 ->
  allDigits f1 = true -> allDigits f2 = true -> f1 <> f2 ->
  maxInt < decimalValue f1 \/ maxInt < decimalValue f2 ->
  (maxInt < decimalValue f1 -> Atoi f1 = inr ErrRange)
  /\ (maxInt < decimalValue f2 -> Atoi f2 = inr ErrRange)
  /\ Version.Compare a b
     = Some (match (decimalValue f1 <=? maxInt)%Z, (decimalValue f2 <=? maxInt)%Z with
             | true, _ => -1
             | false, true => 1
             | false, false => sign (String.compare f1 f2)
             end).
Proof.
  intros E1 E2 E3 N1 N2 S1 S2 T D1 D2 N R.
  pose proof (Atoi_allDigits f1 D1) as A1.
  pose proof (Atoi_allDigits f2 D2) as A2.
  assert (I : identifierOrder f1 f2
              = match (decimalValue f1 <=? maxInt)%Z,
                      (decimalValue f2 <=? maxInt)%Z with
                | true, _ => Lt
                | false, true => Gt
                | false, false => String.compare f1 f2
                end).
  { unfold identifierOrder. rewrite A1, A2.
    destruct (Z.leb_spec (decimalValue f1) maxInt);
      destruct (Z.leb_spec (decimalValue f2) maxInt); trivial; lia. }
  split; [ | split ].
  - intros L. rewrite A1.
    destruct (Z.leb_spec (decimalValue f1) maxInt); trivial; lia.
  - intros L. rewrite A2.
    destruct (Z.leb_spec (decimalValue f2) maxInt); trivial; lia.
  - rewrite Compare_precedence. unfold precedence.
    rewrite (precedenceOrder_at_index a b pre1 pre2 rest1 rest2 f1 f2);
      trivial.
    + rewrite I.
      destruct ((decimalValue f1 <=? maxInt)%Z), ((decimalValue f2 <=? maxInt)%Z);
        reflexivity.
    + rewrite I.
      destruct ((decimalValue f1 <=? maxInt)%Z), ((decimalValue f2 <=? maxInt)%Z);
        try discriminate.
      intros C. apply String.compare_eq_iff in C. contradiction.
Qed.

(** 10^19 against 2^63 on a 64-bit platform: neither fits, and the byte
    order puts the larger number first. *)
Lemma Compare_digits_beyond_int_witness :
  (@maxInt amd64 < decimalValue "9223372036854775808"
   -> @Atoi amd64 "9223372036854775808" = inr ErrRange)
  /\ (@maxInt amd64 < decimalValue "10000000000000000000"
      -> @Atoi amd64 "10000000000000000000" = inr ErrRange)
  /\ @Version.Compare amd64
       (Version.mk 1 0 0 "rc.01.9223372036854775808" "")
       (Version.mk 1 0 0 "rc.1.10000000000000000000.x" "")
     = Some (match (decimalValue "9223372036854775808" <=? @maxInt amd64)%Z,
                   (decimalValue "10000000000000000000" <=? @maxInt amd64)%Z with
             | true, _ => -1
             | false, true => 1
             | false, false =>
                 sign (String.compare "9223372036854775808"
                         "10000000000000000000")
             end).
Proof.
  apply (Compare_digits_beyond_int amd64
           (Version.mk 1 0 0 "rc.01.9223372036854775808" "")
           (Version.mk 1 0 0 "rc.1.10000000000000000000.x" "")
           ["rc"; "01"] ["rc"; "1"] [] ["x"]);
    try reflexivity; try discriminate.
  - repeat constructor.
  - left. reflexivity.
Defined.

Example beyond_int_examples :
  @Version.Compare amd64 (Version.mk 1 0 0 "9223372036854775808" "")
    (Version.mk 1 0 0 "10000000000000000000" "") = Some 1
  /\ @Version.Compare amd64 (Version.mk 1 0 0 "9223372036854775807" "")
       (Version.mk 1 0 0 "9223372036854775808" "") = Some (-1)
  /\ @Version.Compare i386 (Version.mk 1 0 0 "2147483648" "")
       (Version.mk 1 0 0 "10000000000" "") = Some 1.
Proof. repeat split. Qed.

(** ** Totality *)

(** C9: Compare and the renderers give a result on every Version value,
    malformed ones included: Compare never stops on an index out of range
    and always returns -1, 0 or +1; identifiers that fail the integer
    parse are not an error, they are compared as byte strings; pre-release
    strings with empty identifiers or arbitrary bytes compare and
    render. *)
Theorem Compare_total (arch : Arch) (a b : Version.t) :
  (exists r, Version.Compare a b = Some r /\ (r = -1 \/ r = 0 \/ r = 1))
  /\ (forall (pre1 pre2 rest1 rest2 : list string) (f1 f2 : string)
        (e1 e2 : NumError),
        Version.Major a = Version.Major b ->
        Version.Minor a = Version.Minor b ->
        Version.Patch a = Version.Patch b ->
        Version.PreRelease a <> "" -> Version.PreRelease b <> "" ->
        Split (Version.PreRelease a) "." = (pre1 ++ f1 :: rest1)%list ->
        Split (Version.PreRelease b) "." = (pre2 ++ f2 :: rest2)%list ->
        Forall2 (fun x y => identifierOrder x y = Eq) pre1 pre2 ->
        Atoi f1 = inr e1 -> Atoi f2 = inr e2 -> f1 <> f2 ->
        Version.Compare a b = Some (sign (String.compare f1 f2)))
  /\ Version.Compare (Version.mk 1 0 0 "a..b" "") (Version.mk 1 0 0 "a.!.b" "")
     = Some (-1)
  /\ Version.String (Version.mk (-1) 0 0 "..a b" "+x") = "-1.0.0-..a b++x"
  /\ Version.Short (Version.mk (-1) 0 0 "..a b" "+x") = "-1.0.0-..a b"
  /\ Version.Core (Version.mk (-1) 0 0 "..a b" "+x") = "-1.0.0".
Proof.
  split; [ | split ].
  - exists (precedence a b). split.
    + apply Compare_precedence.
    + apply sign_values.
  - intros pre1 pre2 rest1 rest2 f1 f2 e1 e2 E1 E2 E3 N1 N2 S1 S2 T A1 A2 N.
    assert (I : identifierOrder f1 f2 = String.compare f1 f2)
      by (unfold identifierOrder; now rewrite A1, A2).
    rewrite Compare_precedence. unfold precedence.
    rewrite (precedenceOrder_at_index a b pre1 pre2 rest1 rest2 f1 f2);
      trivial.
    + now rewrite I.
    + rewrite I. intros C. apply String.compare_eq_iff in C. contradiction.
  - repeat split.
Qed.

Lemma Compare_total_witness :
  @Version.Compare amd64 (Version.mk 2 1 0 "rc.1x..z" "")
    (Version.mk 2 1 0 "rc.-.y" "")
  = Some (sign (String.compare "1x" "-")).
Proof.
  apply (proj1 (proj2 (Compare_total amd64
                         (Version.mk 2 1 0 "rc.1x..z" "")
                         (Version.mk 2 1 0 "rc.-.y" "")))
           ["rc"] ["rc"] [""; "z"] ["y"] "1x" "-" ErrSyntax ErrSyntax);
    try reflexivity; try discriminate.
  repeat constructor.
Defined.

(** ** Build provenance *)

(** C6, on commit_hash.go: Commit returns something only when the
    working directory is modified.  For a build from a clean checkout, with
    a revision recorded, it returns the empty string, where its
    documentation and the other variant return the short revision. *)
Theorem Commit_clean_build :
  (forall info : Debug.BuildInfo,
     CommitHash.Commit (Some info)
     = let '(commitHash, dirtyWorkingDirectory) :=
         fold_left CommitHash.scan (Debug.Settings info) ("", false) in
       if dirtyWorkingDirectory
       then (if commitHash =? "" then "dirty" else commitHash ++ "-dirty")
       else "")
  /\ CommitHash.Commit (Some cleanBuild) = ""
  /\ CommitHash.Commit (Some revisionOnly) = ""
  /\ CommitHash.Commit (Some dirtyBuild) = "3f2a9c4-dirty"
  /\ CommitHashString.Commit (Some revisionOnly) = "3f2a9c4"
  /\ CommitHashString.Commit (Some dirtyBuild) = "3f2a9c4-dirty"
  /\ CommitHashString.Commit (Some cleanBuild) = "3f2a9c4-dirty".
Proof.
  split; [ | repeat split ].
  intros info. unfold CommitHash.Commit.
  destruct (fold_left CommitHash.scan (Debug.Settings info) ("", false))
    as [commitHash dirty].
  destruct (commitHash =? ""), dirty; reflexivity.
Qed.

(** ** The remaining predicates *)

Example IsZero_examples :
  Version.IsZero (Version.mk 0 0 0 "" "") = true
  /\ Version.IsZero (Version.mk 0 0 1 "" "") = false.
Proof. split; reflexivity. Qed.

Example Less_examples :
  @Version.Less amd64 alpha beta = Some true
  /\ @Version.Less amd64 release rc_1 = Some false
  /\ @Version.Less amd64 (Version.mk 1 0 0 "" "build1")
       (Version.mk 1 0 0 "" "build2") = Some false.
Proof. repeat split. Qed.

(** * Further properties *)

(** ** Less *)

Section LessFacts.

Context `{Arch}.

Lemma Less_precedenceOrder (a b : Version.t) :
  Version.Less a b
  = Some (match precedenceOrder a b with Lt => true | _ => false end).
Proof.
  unfold Version.Less. rewrite Compare_precedence. unfold precedence.
  now destruct (precedenceOrder a b).
Qed.

Lemma Compare_zero_precedenceOrder (a b : Version.t) :
  Version.Compare a b = Some 0 <-> precedenceOrder a b = Eq.
Proof.
  rewrite Compare_precedence. unfold precedence.
  destruct (precedenceOrder a b); simpl; split; congruence.
Qed.

End LessFacts.

(** Less is a strict order: no version is below itself, and of two
    versions at most one is below the other. *)
Theorem Less_irreflexive_asymmetric (arch : Arch) (a b : Version.t) :
  Version.Less a a = Some false
  /\ (Version.Less a b = Some true -> Version.Less b a = Some false).
Proof.
  pose proof (@precedenceOrder_ThreeWay arch) as T.
  rewrite !Less_precedenceOrder. split.
  - now rewrite (tw_refl _ T).
  - rewrite (tw_antisym _ T a b).
    now destruct (precedenceOrder a b).
Qed.

Lemma Less_irreflexive_asymmetric_witness :
  @Version.Less amd64 beta_11 beta_2 = Some false.
Proof.
  apply (proj2 (Less_irreflexive_asymmetric amd64 beta_2 beta_11)).
  reflexivity.
Defined.

(** Less is transitive. *)
Theorem Less_transitive (arch : Arch) (a b c : Version.t) :
  Version.Less a b = Some true -> Version.Less b c = Some true ->
  Version.Less a c = Some true.
Proof.
  pose proof (@precedenceOrder_ThreeWay arch) as T.
  rewrite !Less_precedenceOrder.
  destruct (precedenceOrder a b) eqn:E1; try discriminate.
  destruct (precedenceOrder b c) eqn:E2; try discriminate.
  now rewrite (tw_lt _ T a b c E1 E2).
Qed.

Lemma Less_transitive_witness :
  @Version.Less amd64 alpha rc_1 = Some true.
Proof.
  apply (Less_transitive amd64 alpha beta_2 rc_1); reflexivity.
Defined.

(** Two versions are unordered by Less, in both directions, exactly when
    Compare gives 0; and being unordered is transitive, so Less is a strict
    weak order, as sorting needs. *)
Theorem Less_incomparable (arch : Arch) (a b c : Version.t) :
  (Version.Less a b = Some false /\ Version.Less b a = Some false
   <-> Version.Compare a b = Some 0)
  /\ (Version.Compare a b = Some 0 -> Version.Compare b c = Some 0 ->
      Version.Compare a c = Some 0)
  /\ (Version.Compare a b = Some 0 ->
      Version.Less a c = Version.Less b c
      /\ Version.Less c a = Version.Less c b).
Proof.
  pose proof (@precedenceOrder_ThreeWay arch) as T.
  rewrite !Compare_zero_precedenceOrder, !Less_precedenceOrder.
  split; [ | split ].
  - rewrite (tw_antisym _ T a b).
    destruct (precedenceOrder a b); simpl; split;
      (congruence || (intros []; congruence) || (split; congruence)).
  - intros E1 E2. now rewrite (tw_tie _ T a b c E1).
  - intros E. now rewrite (tw_tie _ T a b c E), (tw_tie_r _ T a b c E).
Qed.

Lemma Less_incomparable_witness :
  @Version.Less amd64 (Version.mk 1 0 0 "rc.01" "x") beta
  = @Version.Less amd64 (Version.mk 1 0 0 "rc.1" "") beta
  /\ @Version.Less amd64 beta (Version.mk 1 0 0 "rc.01" "x")
     = @Version.Less amd64 beta (Version.mk 1 0 0 "rc.1" "").
Proof.
  apply (proj2 (proj2 (Less_incomparable amd64
                         (Version.mk 1 0 0 "rc.01" "x")
                         (Version.mk 1 0 0 "rc.1" "") beta))).
  reflexivity.
Defined.

(** ** ByVersion *)

Lemma store_length (v : ByVersion.t) :
  forall i x, List.length (ByVersion.store v i x) = List.length v.
Proof.
  induction v as [|y v IH]; intros [|i] x; simpl; trivial.
  now rewrite IH.
Qed.

Lemma nth_error_store_same (v : ByVersion.t) :
  forall i x, (i < List.length v)%nat ->
    nth_error (ByVersion.store v i x) i = Some x.
Proof.
  induction v as [|y v IH]; intros [|i] x L; simpl in *; try lia; trivial.
  apply IH. lia.
Qed.

Lemma nth_error_store_other (v : ByVersion.t) :
  forall i k x, k <> i ->
    nth_error (ByVersion.store v i x) k = nth_error v k.
Proof.
  induction v as [|y v IH]; intros [|i] [|k] x N; simpl; trivial;
    try congruence.
  apply IH. congruence.
Qed.

Lemma index_Some (v : ByVersion.t) (i : Z) (x : Version.t) :
  ByVersion.index v i = Some x
  <-> (0 <= i)%Z /\ nth_error v (Z.to_nat i) = Some x.
Proof.
  unfold ByVersion.index. destruct (Z.ltb_spec i 0); split.
  - discriminate.
  - intros [L _]. lia.
  - tauto.
  - tauto.
Qed.

Lemma index_in_range (v : ByVersion.t) (i : Z) :
  (exists x, ByVersion.index v i = Some x)
  <-> (0 <= i < ByVersion.Len v)%Z.
Proof.
  unfold ByVersion.Len. split.
  - intros [x E]. apply index_Some in E as [L E].
    assert (nth_error v (Z.to_nat i) <> None) by congruence.
    apply nth_error_Some in H. lia.
  - intros [L U].
    destruct (nth_error v (Z.to_nat i)) as [x|] eqn:E.
    + exists x. apply index_Some. tauto.
    + apply nth_error_None in E. lia.
Qed.

Lemma index_of_nat (v : ByVersion.t) (k : nat) :
  ByVersion.index v (Z.of_nat k) = nth_error v k.
Proof.
  unfold ByVersion.index. destruct (Z.ltb_spec (Z.of_nat k) 0); [ lia | ].
  now rewrite Nat2Z.id.
Qed.

Lemma index_negative (v : ByVersion.t) (i : Z) :
  (i < 0)%Z -> ByVersion.index v i = None.
Proof.
  intros L. unfold ByVersion.index.
  destruct (Z.ltb_spec i 0); trivial; lia.
Qed.

(** What Swap leaves in the slice. *)
Lemma Swap_index (v v' : ByVersion.t) (i j : Z) :
  ByVersion.Swap v i j = Some v' ->
  forall k, ByVersion.index v' k
            = if (k =? i)%Z then ByVersion.index v j
              else if (k =? j)%Z then ByVersion.index v i
              else ByVersion.index v k.
Proof.
  unfold ByVersion.Swap.
  destruct (ByVersion.index v j) as [vj|] eqn:Ej; [ | discriminate ].
  destruct (ByVersion.index v i) as [vi|] eqn:Ei; [ | discriminate ].
  intros [= <-] k.
  pose proof (proj1 (index_in_range v i) (ex_intro _ vi Ei)) as Ri.
  pose proof (proj1 (index_in_range v j) (ex_intro _ vj Ej)) as Rj.
  unfold ByVersion.Len in Ri, Rj.
  destruct (Z.ltb_spec k 0) as [Lk|Lk].
  { rewrite !index_negative by trivial.
    destruct (Z.eqb_spec k i); [ lia | ].
    destruct (Z.eqb_spec k j); [ lia | reflexivity ]. }
  unfold ByVersion.index at 1. destruct (Z.ltb_spec k 0); [ lia | ].
  destruct (Z.eqb_spec k j) as [-> | Nj].
  - rewrite nth_error_store_same by (rewrite store_length; lia).
    destruct (Z.eqb_spec j i) as [-> | Ni]; congruence.
  - rewrite nth_error_store_other by lia.
    destruct (Z.eqb_spec k i) as [-> | Ni].
    + now rewrite nth_error_store_same by lia.
    + rewrite nth_error_store_other by lia.
      unfold ByVersion.index. destruct (Z.ltb_spec k 0); trivial; lia.
Qed.

Lemma Swap_length (v v' : ByVersion.t) (i j : Z) :
  ByVersion.Swap v i j = Some v' -> List.length v' = List.length v.
Proof.
  unfold ByVersion.Swap.
  destruct (ByVersion.index v j); [ | discriminate ].
  destruct (ByVersion.index v i); [ | discriminate ].
  intros [= <-]. now rewrite !store_length.
Qed.

(** Less and Swap stop on an index out of range, and only then. *)
Theorem ByVersion_index_checks (arch : Arch) (v : ByVersion.t) (i j : Z) :
  ((exists b, ByVersion.Less v i j = Some b)
   <-> (0 <= i < ByVersion.Len v)%Z /\ (0 <= j < ByVersion.Len v)%Z)
  /\ ((exists v', ByVersion.Swap v i j = Some v')
      <-> (0 <= i < ByVersion.Len v)%Z /\ (0 <= j < ByVersion.Len v)%Z).
Proof.
  rewrite <- !index_in_range. unfold ByVersion.Less, ByVersion.Swap.
  split; split.
  - intros [b E].
    destruct (ByVersion.index v i) as [vi|]; [ | discriminate ].
    destruct (ByVersion.index v j) as [vj|]; [ | discriminate ].
    eauto.
  - intros [[vi ->] [vj ->]]. rewrite Compare_precedence. eauto.
  - intros [v' E].
    destruct (ByVersion.index v j) as [vj|]; [ | discriminate ].
    destruct (ByVersion.index v i) as [vi|]; [ | discriminate ].
    eauto.
  - intros [[vi ->] [vj ->]]. eauto.
Qed.

Lemma ByVersion_index_checks_witness :
  exists b, @ByVersion.Less amd64 [alpha; beta] 1 0 = Some b.
Proof.
  apply (proj2 (proj1 (ByVersion_index_checks amd64 [alpha; beta] 1 0))).
  unfold ByVersion.Len. simpl. lia.
Defined.

(** Swap exchanges the two elements and leaves the length and every other
    element as they were. *)
Theorem Swap_exchanges (v v' : ByVersion.t) (i j : Z) :
  ByVersion.Swap v i j = Some v' ->
  ByVersion.Len v' = ByVersion.Len v
  /\ ByVersion.index v' i = ByVersion.index v j
  /\ ByVersion.index v' j = ByVersion.index v i
  /\ (forall k, k <> i -> k <> j ->
        ByVersion.index v' k = ByVersion.index v k).
Proof.
  intros E. pose proof (Swap_index v v' i j E) as I.
  split; [ | split; [ | split ] ].
  - unfold ByVersion.Len. now rewrite (Swap_length v v' i j E).
  - rewrite I, Z.eqb_refl. reflexivity.
  - rewrite I, Z.eqb_refl. destruct (Z.eqb_spec j i); congruence.
  - intros k Ni Nj. rewrite I.
    destruct (Z.eqb_spec k i); [ contradiction | ].
    destruct (Z.eqb_spec k j); [ contradiction | reflexivity ].
Qed.

Lemma Swap_exchanges_witness :
  ByVersion.Len [beta; alpha; release] = ByVersion.Len [release; alpha; beta]
  /\ ByVersion.index [beta; alpha; release] 2
     = ByVersion.index [release; alpha; beta] 0
  /\ ByVersion.index [beta; alpha; release] 0
     = ByVersion.index [release; alpha; beta] 2
  /\ (forall k, k <> 2%Z -> k <> 0%Z ->
        ByVersion.index [beta; alpha; release] k
        = ByVersion.index [release; alpha; beta] k).
Proof.
  apply (Swap_exchanges [release; alpha; beta] [beta; alpha; release] 2 0).
  reflexivity.
Defined.

(** Swapping the same two indices again restores the slice. *)
Theorem Swap_involutive (v v' : ByVersion.t) (i j : Z) :
  ByVersion.Swap v i j = Some v' -> ByVersion.Swap v' i j = Some v.
Proof.
  intros E. pose proof (Swap_index v v' i j E) as I.
  destruct (ByVersion.Swap v' i j) as [v''|] eqn:E'.
  - f_equal. apply nth_error_ext. intros k.
    rewrite <- !index_of_nat.
    rewrite (Swap_index v' v'' i j E'), !I, !Z.eqb_refl.
    repeat match goal with
           | |- context [(?a =? ?b)%Z] => destruct (Z.eqb_spec a b)
           end; subst; trivial; congruence.
  - exfalso. unfold ByVersion.Swap in E, E'.
    rewrite !I, !Z.eqb_refl in E'.
    destruct (ByVersion.index v j) as [vj|]; [ | discriminate ].
    destruct (ByVersion.index v i) as [vi|]; [ | discriminate ].
    destruct (j =? i)%Z; discriminate.
Qed.

Lemma Swap_involutive_witness :
  ByVersion.Swap [beta; alpha; release] 2 0 = Some [release; alpha; beta].
Proof.
  apply (Swap_involutive [release; alpha; beta] [beta; alpha; release] 2 0).
  reflexivity.
Defined.

Lemma store_Permutation_head (l : ByVersion.t) :
  forall j a b, nth_error l j = Some b ->
    Permutation (a :: l) (b :: ByVersion.store l j a).
Proof.
  induction l as [|y l IH]; intros [|j] a b E; simpl in *;
    try discriminate.
  - injection E as ->. apply perm_swap.
  - apply perm_trans with (y :: a :: l); [ apply perm_swap | ].
    apply perm_trans with (y :: b :: ByVersion.store l j a);
      [ apply perm_skip; now apply IH | apply perm_swap ].
Qed.

Lemma store_store_Permutation (l : ByVersion.t) :
  forall i j a b, nth_error l i = Some a -> nth_error l j = Some b ->
    Permutation l (ByVersion.store (ByVersion.store l i b) j a).
Proof.
  induction l as [|y l IH]; intros [|i] [|j] a b Ei Ej; simpl in *;
    try discriminate.
  - injection Ei as ->. apply Permutation_refl.
  - injection Ei as ->. now apply store_Permutation_head.
  - injection Ej as ->. now apply store_Permutation_head.
  - apply perm_skip. now apply IH.
Qed.

(** Swap permutes the slice: no version is lost or duplicated. *)
Theorem Swap_Permutation (v v' : ByVersion.t) (i j : Z) :
  ByVersion.Swap v i j = Some v' -> Permutation v v'.
Proof.
  unfold ByVersion.Swap.
  destruct (ByVersion.index v j) as [vj|] eqn:Ej; [ | discriminate ].
  destruct (ByVersion.index v i) as [vi|] eqn:Ei; [ | discriminate ].
  intros [= <-]. apply index_Some in Ei as [_ Ei], Ej as [_ Ej].
  now apply store_store_Permutation.
Qed.

Lemma Swap_Permutation_witness :
  Permutation [release; alpha; beta] [alpha; release; beta].
Proof.
  apply (Swap_Permutation [release; alpha; beta] [alpha; release; beta] 0 1).
  reflexivity.
Defined.

Lemma ByVersion_Less_elements `{Arch} (v : ByVersion.t) (i j : Z)
    (x y : Version.t) :
  ByVersion.index v i = Some x -> ByVersion.index v j = Some y ->
  ByVersion.Less v i j
  = Some (match precedenceOrder x y with Lt => true | _ => false end).
Proof.
  intros Ei Ej. unfold ByVersion.Less.
  rewrite Ei, Ej, Compare_precedence. unfold precedence.
  now destruct (precedenceOrder x y).
Qed.

(** After Swap(i, j) the two positions compare the other way round. *)
Theorem Less_after_Swap (arch : Arch) (v v' : ByVersion.t) (i j : Z) :
  ByVersion.Swap v i j = Some v' ->
  ByVersion.Less v' i j = ByVersion.Less v j i
  /\ ByVersion.Less v' j i = ByVersion.Less v i j.
Proof.
  intros E. pose proof (Swap_index v v' i j E) as I.
  unfold ByVersion.Less. rewrite !I, !Z.eqb_refl.
  destruct (Z.eqb_spec j i) as [-> | N]; split; reflexivity.
Qed.

Lemma Less_after_Swap_witness :
  @ByVersion.Less amd64 [alpha; release; beta] 0 1
  = @ByVersion.Less amd64 [release; alpha; beta] 1 0
  /\ @ByVersion.Less amd64 [alpha; release; beta] 1 0
     = @ByVersion.Less amd64 [release; alpha; beta] 0 1.
Proof.
  apply (Less_after_Swap amd64 [release; alpha; beta]
           [alpha; release; beta] 0 1).
  reflexivity.
Defined.

(** A slice in which no element is below its left neighbour has no
    element below any element to its left: order between neighbours, which
    is what a sort establishes through Less, is order of the slice. *)
Theorem ByVersion_sorted_neighbours (arch : Arch) (v : ByVersion.t) :
  (forall k, (0 <= k)%Z -> (k + 1 < ByVersion.Len v)%Z ->
     ByVersion.Less v (k + 1) k = Some false) ->
  forall i j, (0 <= i)%Z -> (i <= j)%Z -> (j < ByVersion.Len v)%Z ->
    ByVersion.Less v j i = Some false.
Proof.
  intros Adj.
  pose proof (@precedenceOrder_ThreeWay arch) as T.
  assert (Step : forall (d : nat) (i : Z), (0 <= i)%Z ->
            (i + Z.of_nat d < ByVersion.Len v)%Z ->
            ByVersion.Less v (i + Z.of_nat d) i = Some false).
  { induction d as [|d IH]; intros i L U.
    - rewrite Z.add_0_r in *.
      destruct (proj2 (index_in_range v i)) as [x Ex]; [ lia | ].
      rewrite (ByVersion_Less_elements v i i x x Ex Ex).
      now rewrite (tw_refl _ T).
    - rewrite Nat2Z.inj_succ in *.
      destruct (proj2 (index_in_range v i)) as [x Ex]; [ lia | ].
      destruct (proj2 (index_in_range v (i + Z.of_nat d))) as [y Ey];
        [ lia | ].
      destruct (proj2 (index_in_range v (i + Z.succ (Z.of_nat d))))
        as [z Ez]; [ lia | ].
      pose proof (IH i L ltac:(lia)) as H1.
      pose proof (Adj (i + Z.of_nat d)%Z ltac:(lia) ltac:(lia)) as H2.
      replace (i + Z.of_nat d + 1)%Z with (i + Z.succ (Z.of_nat d))%Z
        in H2 by lia.
      rewrite (ByVersion_Less_elements v _ _ y x Ey Ex) in H1.
      rewrite (ByVersion_Less_elements v _ _ z y Ez Ey) in H2.
      rewrite (ByVersion_Less_elements v _ _ z x Ez Ex).
      assert (Lxy : precedenceOrder x y <> Gt).
      { rewrite (tw_antisym _ T y x).
        destruct (precedenceOrder y x); simpl; congruence. }
      assert (Lyz : precedenceOrder y z <> Gt).
      { rewrite (tw_antisym _ T z y).
        destruct (precedenceOrder z y); simpl; congruence. }
      pose proof (tw_le_trans _ T x y z Lxy Lyz) as Lxz.
      rewrite (tw_antisym _ T x z).
      destruct (precedenceOrder x z); simpl; congruence. }
  intros i j L Le U.
  replace j with (i + Z.of_nat (Z.to_nat (j - i)))%Z by lia.
  apply Step; lia.
Qed.

Lemma ByVersion_sorted_neighbours_witness :
  @ByVersion.Less amd64 [alpha; alpha_1; beta; release] 3 0 = Some false.
Proof.
  apply (ByVersion_sorted_neighbours amd64 [alpha; alpha_1; beta; release]);
    try (unfold ByVersion.Len; simpl; lia).
  intros k L U. unfold ByVersion.Len in U. simpl in U.
  assert (C : k = 0%Z \/ k = 1%Z \/ k = 2%Z) by lia.
  destruct C as [-> | [-> | ->]]; reflexivity.
Defined.

(** ** Split *)

Lemma Split_nonempty (s : string) : Split s "." <> [].
Proof.
  destruct s as [|c s]; simpl; [ discriminate | ].
  destruct (Ascii.eqb c "."); [ discriminate | ].
  destruct (Split s "."); discriminate.
Qed.

Lemma Split_empty_field (s : string) : Split s "." = [""] -> s = "".
Proof.
  destruct s as [|c s]; simpl; trivial.
  destruct (Ascii.eqb c ".").
  - intros [= E]. now elim (Split_nonempty s).
  - destruct (Split s "."); discriminate.
Qed.

(** A dot ends a field. *)
Lemma Split_app_dot (p s : string) :
  Split (p ++ String "." s) "." = (Split p "." ++ Split s ".")%list.
Proof.
  induction p as [|c p IH]; simpl; trivial.
  rewrite IH. destruct (Ascii.eqb c "."); trivial.
  pose proof (Split_nonempty p) as N.
  destruct (Split p "."); [ contradiction | reflexivity ].
Qed.

Lemma Split_no_dot (s : string) :
  forallb (fun c => negb (Ascii.eqb c ".")) (list_ascii_of_string s) = true ->
  Split s "." = [s].
Proof.
  induction s as [|c s IH]; simpl; trivial.
  intros D. apply andb_true_iff in D as [Dc D].
  apply negb_true_iff in Dc. rewrite Dc, (IH D). reflexivity.
Qed.

(** ** When Compare gives 0 *)

Section Ties.

Context `{Arch}.

Lemma Atoi_empty : Atoi "" = inr ErrSyntax.
Proof. reflexivity. Qed.

Lemma identifierOrder_Eq (x y : string) :
  identifierOrder x y = Eq <-> identifierTie x y.
Proof.
  unfold identifierOrder, identifierTie. split.
  - destruct (Atoi x) as [n1|e1] eqn:Ex, (Atoi y) as [n2|e2] eqn:Ey;
      try discriminate; intros E.
    + apply Z.compare_eq in E. subst. right. eauto.
    + apply String.compare_eq_iff in E. now left.
  - intros [-> | (n & -> & ->)].
    + destruct (Atoi y).
      * apply Z.compare_refl.
      * apply (tw_refl _ string_compare_ThreeWay).
    + apply Z.compare_refl.
Qed.

Lemma sequenceOrder_Eq (l1 : list string) :
  forall l2, sequenceOrder l1 l2 = Eq
             <-> Forall2 (fun x y => identifierOrder x y = Eq) l1 l2.
Proof.
  induction l1 as [|x l1 IH]; intros [|y l2]; simpl; split;
    try discriminate; try (intros F; inversion F; fail); auto.
  - destruct (identifierOrder x y) eqn:E; try discriminate.
    intros S. constructor; trivial. now apply IH.
  - intros F. inversion F as [|? ? ? ? E F']; subst.
    rewrite E. now apply IH.
Qed.

Lemma sequenceOrder_refl (l : list string) : sequenceOrder l l = Eq.
Proof. apply (tw_refl _ sequenceOrder_ThreeWay). Qed.

Lemma preReleaseOrder_Eq (a b : Version.t) :
  preReleaseOrder a b = Eq
  <-> Forall2 identifierTie (Split (Version.PreRelease a) ".")
        (Split (Version.PreRelease b) ".").
Proof.
  assert (Q : forall l1 l2,
             Forall2 identifierTie l1 l2
             <-> Forall2 (fun x y => identifierOrder x y = Eq) l1 l2).
  { intros l1 l2. split; intros F; induction F; constructor; trivial;
      now apply identifierOrder_Eq. }
  rewrite Q, <- sequenceOrder_Eq. unfold preReleaseOrder.
  destruct (String.eqb_spec (Version.PreRelease a) "") as [Ea|Na];
    destruct (String.eqb_spec (Version.PreRelease b) "") as [Eb|Nb].
  - rewrite Ea, Eb. split; reflexivity.
  - rewrite Ea. split; [ discriminate | ].
    intros S. apply sequenceOrder_Eq in S.
    inversion S as [|x y l1 l2 E F E1 E2]. inversion F; subst.
    unfold identifierOrder in E. rewrite Atoi_empty in E.
    destruct (Atoi y); [ discriminate | ].
    apply String.compare_eq_iff in E. subst y.
    symmetry in E2. now apply Split_empty_field in E2.
  - rewrite Eb. split; [ discriminate | ].
    intros S. apply sequenceOrder_Eq in S.
    inversion S as [|x y l1 l2 E F E1 E2]. inversion F; subst.
    unfold identifierOrder in E. rewrite Atoi_empty in E.
    destruct (Atoi x); [ discriminate | ].
    apply String.compare_eq_iff in E. subst x.
    symmetry in E1. now apply Split_empty_field in E1.
  - reflexivity.
Qed.

Lemma precedenceOrder_Eq (a b : Version.t) :
  precedenceOrder a b = Eq
  <-> same_core_triple a b /\ preReleaseOrder a b = Eq.
Proof.
  unfold precedenceOrder, andThen, by_field, same_core_triple. split.
  - destruct (Version.Major a ?= Version.Major b)%Z eqn:E1;
      try discriminate.
    destruct (Version.Minor a ?= Version.Minor b)%Z eqn:E2;
      try discriminate.
    destruct (Version.Patch a ?= Version.Patch b)%Z eqn:E3;
      try discriminate.
    apply Z.compare_eq in E1, E2, E3. tauto.
  - intros ((-> & -> & ->) & E). now rewrite !Z.compare_refl.
Qed.

End Ties.

(** Compare gives 0 exactly when the core triples are equal and the
    pre-releases have the same number of identifiers, each pair either the
    same string or two strings that Atoi reads as the same integer (as "1",
    "01" and "+1"). *)
Theorem Compare_zero_iff (arch : Arch) (a b : Version.t) :
  Version.Compare a b = Some 0
  <-> same_core_triple a b
      /\ Forall2 identifierTie (Split (Version.PreRelease a) ".")
           (Split (Version.PreRelease b) ".").
Proof.
  now rewrite Compare_zero_precedenceOrder, precedenceOrder_Eq,
    preReleaseOrder_Eq.
Qed.

Lemma Compare_zero_iff_witness :
  @Version.Compare amd64 (Version.mk 1 2 3 "rc.01.x" "")
    (Version.mk 1 2 3 "rc.+1.x" "b") = Some 0.
Proof.
  apply (proj2 (Compare_zero_iff amd64 (Version.mk 1 2 3 "rc.01.x" "")
                  (Version.mk 1 2 3 "rc.+1.x" "b"))).
  split; [ repeat split | ].
  change (Forall2 (@identifierTie amd64) ["rc"; "01"; "x"] ["rc"; "+1"; "x"]).
  apply Forall2_cons; [ left; reflexivity | ].
  apply Forall2_cons; [ right; exists 1%Z; split; reflexivity | ].
  apply Forall2_cons; [ left; reflexivity | apply Forall2_nil ].
Defined.

(** Versions with different core triples are ordered by the triples alone:
    whatever pre-releases are put on them, Compare gives the same result,
    and it is not 0. *)
Theorem Compare_core_triple_first (arch : Arch) (a b : Version.t)
    (p q : string) :
  ~ same_core_triple a b ->
  Version.Compare (withPreRelease a p) (withPreRelease b q)
  = Version.Compare a b
  /\ Version.Compare a b <> Some 0.
Proof.
  intros N. split.
  - rewrite !Compare_precedence. f_equal.
    unfold precedence, precedenceOrder, andThen, by_field, withPreRelease.
    cbn [Version.Major Version.Minor Version.Patch].
    destruct (Version.Major a ?= Version.Major b)%Z eqn:E1; trivial.
    destruct (Version.Minor a ?= Version.Minor b)%Z eqn:E2; trivial.
    destruct (Version.Patch a ?= Version.Patch b)%Z eqn:E3; trivial.
    apply Z.compare_eq in E1, E2, E3. elim N. repeat split; trivial.
  - rewrite Compare_zero_precedenceOrder, precedenceOrder_Eq. tauto.
Qed.

Lemma Compare_core_triple_first_witness :
  @Version.Compare amd64
    (withPreRelease (Version.mk 1 2 3 "" "") "rc.1")
    (withPreRelease (Version.mk 1 3 0 "alpha" "") "")
  = @Version.Compare amd64 (Version.mk 1 2 3 "" "")
      (Version.mk 1 3 0 "alpha" "")
  /\ @Version.Compare amd64 (Version.mk 1 2 3 "" "")
       (Version.mk 1 3 0 "alpha" "") <> Some 0.
Proof.
  apply (Compare_core_triple_first amd64 (Version.mk 1 2 3 "" "")
           (Version.mk 1 3 0 "alpha" "") "rc.1" "").
  unfold same_core_triple. simpl. intros (_ & E & _). discriminate.
Defined.

(** ** Growing a pre-release *)

Lemma sequenceOrder_extension `{Arch} (l : list string) :
  forall x rest, sequenceOrder l (l ++ x :: rest)%list = Lt.
Proof.
  induction l as [|y l IH]; intros x rest; simpl; trivial.
  now rewrite (tw_refl _ identifierOrder_ThreeWay).
Qed.

Lemma append_not_empty (s t : string) : s <> "" -> s ++ t <> "".
Proof. destruct s; [ congruence | discriminate ]. Qed.

(** A pre-release with one more dot-separated identifier at its end, of
    whatever content, has higher precedence. *)
Theorem Compare_appended_identifier (arch : Arch) (a b : Version.t)
    (s : string) :
  same_core_triple a b -> Version.PreRelease a <> "" ->
  Version.PreRelease b = Version.PreRelease a ++ "." ++ s ->
  Version.Compare a b = Some (-1) /\ Version.Compare b a = Some 1.
Proof.
  intros (E1 & E2 & E3) Na Eb.
  assert (Nb : Version.PreRelease b <> "")
    by (rewrite Eb; now apply append_not_empty).
  assert (L : precedenceOrder a b = Lt).
  { rewrite precedenceOrder_tied_triple by assumption.
    unfold preReleaseOrder. apply String.eqb_neq in Na, Nb.
    rewrite Na, Nb, Eb. cbn [append]. rewrite Split_app_dot.
    pose proof (Split_nonempty s) as N.
    destruct (Split s ".") as [|x rest]; [ contradiction | ].
    apply sequenceOrder_extension. }
  rewrite !Compare_precedence. unfold precedence.
  now rewrite (tw_antisym _ precedenceOrder_ThreeWay a b), L.
Qed.

Lemma Compare_appended_identifier_witness :
  @Version.Compare amd64 alpha_beta (Version.mk 1 0 0 "alpha.beta.0" "")
  = Some (-1)
  /\ @Version.Compare amd64 (Version.mk 1 0 0 "alpha.beta.0" "") alpha_beta
     = Some 1.
Proof.
  apply (Compare_appended_identifier amd64 alpha_beta
           (Version.mk 1 0 0 "alpha.beta.0" "") "0");
    (repeat split || discriminate).
Defined.

(** ** Numbers written by %d *)

Lemma parseDigits_Some_digits (s : string) :
  forall n m, parseDigits s n = Some m ->
    forallb isDigit (list_ascii_of_string s) = true.
Proof.
  induction s as [|c s IH]; intros n m; simpl; trivial.
  destruct (isDigit c); [ | discriminate ]. apply IH.
Qed.

Lemma fmtInteger_nonneg_shape (n : Z) :
  (0 <= n)%Z ->
  exists c r, fmtInteger n = String c r /\ isDigit c = true
              /\ parseDigits (String c r) 0 = Some n.
Proof.
  intros B. pose proof (fmtInteger_parseDigits n B) as P.
  destruct (fmtInteger n) as [|c r] eqn:E.
  - injection P as <-. discriminate E.
  - exists c, r. repeat split; trivial.
    simpl in P. destruct (isDigit c); [ reflexivity | discriminate ].
Qed.

(** Atoi reads back what %d writes, for every number that fits int. *)
Lemma Atoi_fmtInteger `{Arch} (n : Z) :
  fitsInt n -> Atoi (fmtInteger n) = inl n.
Proof.
  unfold fitsInt. set (cutoff := (2 ^ (intSize - 1))%Z). intros F.
  destruct (Z.ltb_spec n 0) as [L|L].
  - destruct (fmtInteger_nonneg_shape (Z.abs n)) as (c & r & E & D & P);
      [ lia | ].
    rewrite fmtInteger_sign, E.
    destruct (Z.ltb_spec n 0); [ | lia ].
    cbn [append]. unfold Atoi, ParseInt. fold cutoff.
    change (Ascii.eqb "-" "-") with true.
    change (Ascii.eqb "-" "+") with false.
    cbn [orb negb andb]. rewrite P.
    destruct (Z.gtb_spec (Z.abs n) cutoff); [ lia | ].
    f_equal. lia.
  - destruct (fmtInteger_nonneg_shape n L) as (c & r & E & D & P).
    rewrite E. unfold Atoi, ParseInt. fold cutoff.
    destruct (isDigit_not_sign c D) as [-> ->]. cbn [orb negb andb].
    rewrite P.
    destruct (Z.geb_spec n cutoff); [ lia | reflexivity ].
Qed.

Lemma fmtInteger_not_empty (n : Z) : fmtInteger n <> "".
Proof.
  rewrite fmtInteger_sign.
  destruct (fmtInteger_nonneg_shape (Z.abs n)) as (c & r & E & _);
    [ lia | ].
  rewrite E. destruct (n <? 0)%Z; discriminate.
Qed.

(** Pre-releases that differ only in a last identifier written by %d are
    ordered by the numbers written, negative ones included, whenever the
    numbers fit int. *)
Theorem Compare_numeric_identifiers (arch : Arch) (a b : Version.t)
    (pre : list string) (m n : Z) :
  same_core_triple a b ->
  Split (Version.PreRelease a) "." = (pre ++ [fmtInteger m])%list ->
  Split (Version.PreRelease b) "." = (pre ++ [fmtInteger n])%list ->
  fitsInt m -> fitsInt n ->
  Version.Compare a b = Some (sign (m ?= n)%Z).
Proof.
  intros (E1 & E2 & E3) Sa Sb Fm Fn.
  assert (NE : forall v k, Split (Version.PreRelease v) "."
                           = (pre ++ [fmtInteger k])%list ->
                           (Version.PreRelease v =? "") = false).
  { intros v k S. apply String.eqb_neq. intros E. rewrite E in S.
    destruct pre as [|x [|y pre']]; try discriminate S.
    injection S as S. symmetry in S. now apply fmtInteger_not_empty in S. }
  rewrite Compare_precedence. unfold precedence. f_equal.
  rewrite precedenceOrder_tied_triple by assumption.
  unfold preReleaseOrder. rewrite (NE a m Sa), (NE b n Sb), Sa, Sb.
  rewrite sequenceOrder_tied_prefix.
  - cbn [sequenceOrder]. unfold identifierOrder.
    rewrite !Atoi_fmtInteger by assumption.
    now destruct (m ?= n)%Z.
  - clear. induction pre; constructor; trivial.
    apply (tw_refl _ identifierOrder_ThreeWay).
Qed.

Lemma Compare_numeric_identifiers_witness :
  @Version.Compare amd64 (Version.mk 1 0 0 "beta.-3" "")
    (Version.mk 1 0 0 "beta.11" "") = Some (sign (-3 ?= 11)%Z).
Proof.
  apply (Compare_numeric_identifiers amd64 (Version.mk 1 0 0 "beta.-3" "")
           (Version.mk 1 0 0 "beta.11" "") ["beta"] (-3) 11);
    try reflexivity; try (repeat split; fail);
    unfold fitsInt; simpl; lia.
Defined.

(** ** Reading a rendering back *)

Lemma isDigit_not_dot (c : ascii) :
  isDigit c = true -> Ascii.eqb c "." = false.
Proof.
  destruct c as [[] [] [] [] [] [] [] []]; intros D;
    try discriminate D; reflexivity.
Qed.

Lemma digits_no_dot (s : string) :
  forallb isDigit (list_ascii_of_string s) = true ->
  forallb (fun c => negb (Ascii.eqb c ".")) (list_ascii_of_string s) = true.
Proof.
  induction s as [|c s IH]; simpl; trivial.
  intros D. apply andb_true_iff in D as [Dc D].
  now rewrite (isDigit_not_dot c Dc), IH.
Qed.

Lemma fmtInteger_digits (n : Z) :
  (0 <= n)%Z -> forallb isDigit (list_ascii_of_string (fmtInteger n)) = true.
Proof.
  intros B. apply (parseDigits_Some_digits _ 0%Z n).
  now apply fmtInteger_parseDigits.
Qed.

Lemma fmtInteger_no_dot (n : Z) :
  forallb (fun c => negb (Ascii.eqb c "."))
    (list_ascii_of_string (fmtInteger n)) = true.
Proof.
  rewrite fmtInteger_sign.
  pose proof (digits_no_dot _ (fmtInteger_digits (Z.abs n) (Z.abs_nonneg n)))
    as D.
  destruct (n <? 0)%Z; simpl; trivial.
Qed.

Lemma Core_fields (v : Version.t) :
  Split (Version.Core v) "."
  = [fmtInteger (Version.Major v); fmtInteger (Version.Minor v);
     fmtInteger (Version.Patch v)].
Proof.
  unfold Version.Core. cbn [append].
  rewrite !Split_app_dot, !Split_no_dot by apply fmtInteger_no_dot.
  reflexivity.
Qed.

(** Core can be read back: splitting it on '.' and reading each field
    with Atoi gives Major, Minor and Patch, whenever they fit int. *)
Theorem Core_round_trip (arch : Arch) (v : Version.t) :
  fitsInt (Version.Major v) -> fitsInt (Version.Minor v) ->
  fitsInt (Version.Patch v) ->
  map Atoi (Split (Version.Core v) ".")
  = [inl (Version.Major v); inl (Version.Minor v); inl (Version.Patch v)].
Proof.
  intros F1 F2 F3. rewrite Core_fields. cbn [map].
  now rewrite !Atoi_fmtInteger.
Qed.

Lemma Core_round_trip_witness :
  map (@Atoi amd64) (Split (Version.Core (Version.mk 12 0 345 "rc.1" "b")) ".")
  = [inl 12%Z; inl 0%Z; inl 345%Z].
Proof.
  apply (Core_round_trip amd64 (Version.mk 12 0 345 "rc.1" "b"));
    unfold fitsInt; simpl; lia.
Defined.

Lemma digits_prefix_unique (d1 : string) :
  forall d2 r1 r2,
    forallb isDigit (list_ascii_of_string d1) = true ->
    forallb isDigit (list_ascii_of_string d2) = true ->
    startsWithDigit r1 = false -> startsWithDigit r2 = false ->
    d1 ++ r1 = d2 ++ r2 -> d1 = d2 /\ r1 = r2.
Proof.
  induction d1 as [|c d1 IH]; intros [|c' d2] r1 r2 D1 D2 S1 S2 E;
    simpl in *.
  - tauto.
  - subst r1. apply andb_true_iff in D2 as [Dc _]. simpl in S1. congruence.
  - subst r2. apply andb_true_iff in D1 as [Dc _]. simpl in S2. congruence.
  - apply andb_true_iff in D1 as [_ D1], D2 as [_ D2].
    injection E as -> E. destruct (IH d2 r1 r2 D1 D2 S1 S2 E) as [-> ->].
    tauto.
Qed.

(** A number written by %d ends where the digits end. *)
Lemma fmtInteger_prefix_unique (n m : Z) (r1 r2 : string) :
  startsWithDigit r1 = false -> startsWithDigit r2 = false ->
  fmtInteger n ++ r1 = fmtInteger m ++ r2 -> n = m /\ r1 = r2.
Proof.
  intros S1 S2.
  pose proof (fmtInteger_digits (Z.abs n) (Z.abs_nonneg n)) as Dn.
  pose proof (fmtInteger_digits (Z.abs m) (Z.abs_nonneg m)) as Dm.
  pose proof (fmtInteger_parseDigits (Z.abs n) (Z.abs_nonneg n)) as Pn.
  pose proof (fmtInteger_parseDigits (Z.abs m) (Z.abs_nonneg m)) as Pm.
  destruct (fmtInteger_nonneg_shape (Z.abs n) (Z.abs_nonneg n))
    as (cn & rn & En & Cn & _).
  destruct (fmtInteger_nonneg_shape (Z.abs m) (Z.abs_nonneg m))
    as (cm & rm & Em & Cm & _).
  rewrite (fmtInteger_sign n), (fmtInteger_sign m).
  assert (Fin : fmtInteger (Z.abs n) ++ r1 = fmtInteger (Z.abs m) ++ r2 ->
                Z.abs n = Z.abs m /\ r1 = r2).
  { intros E.
    destruct (digits_prefix_unique _ _ r1 r2 Dn Dm S1 S2 E) as [Ed ->].
    rewrite Ed in Pn. split; congruence. }
  destruct (Z.ltb_spec n 0) as [Ln|Ln]; destruct (Z.ltb_spec m 0) as [Lm|Lm];
    cbn [append].
  - intros [= E]. destruct (Fin E). split; [ lia | trivial ].
  - rewrite Em. cbn [append]. intros [= <- _]. discriminate Cm.
  - rewrite En. cbn [append]. intros [= -> _]. discriminate Cn.
  - intros E. destruct (Fin E). split; [ lia | trivial ].
Qed.

Lemma Short_suffix (v : Version.t) :
  Version.Short v
  = fmtInteger (Version.Major v)
      ++ String "." (fmtInteger (Version.Minor v)
      ++ String "." (fmtInteger (Version.Patch v)
      ++ (if Version.PreRelease v =? "" then ""
          else String "-" (Version.PreRelease v)))).
Proof.
  unfold Version.Short.
  destruct (Version.PreRelease v =? ""); cbn [negb append].
  - now rewrite append_nil_r.
  - reflexivity.
Qed.

(** Core is a faithful rendering of the core triple: two versions have
    the same Core exactly when Major, Minor and Patch are equal. *)
Theorem Core_injective (a b : Version.t) :
  Version.Core a = Version.Core b <-> same_core_triple a b.
Proof.
  unfold same_core_triple. split.
  - unfold Version.Core. cbn [append]. intros E.
    apply fmtInteger_prefix_unique in E as [E1 E]; trivial.
    injection E as E.
    apply fmtInteger_prefix_unique in E as [E2 E]; trivial.
    injection E as E.
    rewrite <- (append_nil_r (fmtInteger (Version.Patch a))),
      <- (append_nil_r (fmtInteger (Version.Patch b))) in E.
    apply fmtInteger_prefix_unique in E as [E3 _]; trivial.
    tauto.
  - unfold Version.Core. now intros (-> & -> & ->).
Qed.

Lemma Core_injective_witness :
  same_core_triple (Version.mk 1 2 3 "rc.1" "") (Version.mk 1 2 3 "" "b7").
Proof.
  apply (proj1 (Core_injective (Version.mk 1 2 3 "rc.1" "")
                  (Version.mk 1 2 3 "" "b7"))).
  reflexivity.
Defined.

(** Short is a faithful rendering of the fields that decide precedence:
    two versions have the same Short exactly when Major, Minor, Patch and
    PreRelease are equal, and then Compare gives 0. *)
Theorem Short_injective (arch : Arch) (a b : Version.t) :
  (Version.Short a = Version.Short b <-> same_precedence_fields a b)
  /\ (Version.Short a = Version.Short b -> Version.Compare a b = Some 0).
Proof.
  assert (I : Version.Short a = Version.Short b
              -> same_precedence_fields a b).
  { rewrite !Short_suffix. intros E.
    apply fmtInteger_prefix_unique in E as [E1 E]; trivial.
    injection E as E.
    apply fmtInteger_prefix_unique in E as [E2 E]; trivial.
    injection E as E.
    apply fmtInteger_prefix_unique in E as [E3 E].
    - repeat split; trivial.
      destruct (String.eqb_spec (Version.PreRelease a) "") as [Ea|Na];
        destruct (String.eqb_spec (Version.PreRelease b) "") as [Eb|Nb];
        try discriminate E; congruence.
    - now destruct (Version.PreRelease a =? "").
    - now destruct (Version.PreRelease b =? ""). }
  split; [ split; trivial | ].
  - unfold same_precedence_fields. rewrite !Short_suffix.
    now intros (-> & -> & -> & ->).
  - intros E. rewrite Compare_precedence. unfold precedence.
    now rewrite precedenceOrder_same_fields by auto.
Qed.

Lemma Short_injective_witness :
  @Version.Compare amd64 (Version.mk 2 1 3 "rc.1" "20230101")
    (Version.mk 2 1 3 "rc.1" "") = Some 0.
Proof.
  apply (proj2 (Short_injective amd64 (Version.mk 2 1 3 "rc.1" "20230101")
                  (Version.mk 2 1 3 "rc.1" ""))).
  reflexivity.
Defined.

(** String is not a faithful rendering: it copies PreRelease and Build
    without looking at them, so a version with both has the same String
    as the version whose PreRelease is the two joined by '+' and whose
    Build is empty, which is not Equal to it. *)
Theorem String_ambiguous (v : Version.t) :
  Version.PreRelease v <> "" -> Version.Build v <> "" ->
  let w := withBuild
             (withPreRelease v
                (Version.PreRelease v ++ "+" ++ Version.Build v)) "" in
  Version.String w = Version.String v /\ Version.Equal v w = false.
Proof.
  intros Np Nb w. split.
  - unfold Version.String, w, withBuild, withPreRelease.
    cbn [Version.Major Version.Minor Version.Patch Version.PreRelease
         Version.Build].
    apply String.eqb_neq in Np, Nb. rewrite Np, Nb.
    destruct (String.eqb_spec (Version.PreRelease v ++ "+" ++ Version.Build v)
                "") as [E|_].
    + destruct (Version.PreRelease v); discriminate.
    + reflexivity.
  - unfold Version.Equal, w, withBuild, withPreRelease.
    cbn [Version.Major Version.Minor Version.Patch Version.PreRelease
         Version.Build].
    apply String.eqb_neq in Nb. rewrite Nb. apply andb_false_r.
Qed.

Lemma String_ambiguous_witness :
  Version.String (Version.mk 1 0 0 "beta+exp" "")
  = Version.String (Version.mk 1 0 0 "beta" "exp")
  /\ Version.Equal (Version.mk 1 0 0 "beta" "exp")
       (Version.mk 1 0 0 "beta+exp" "") = false.
Proof.
  apply (String_ambiguous (Version.mk 1 0 0 "beta" "exp")); discriminate.
Defined.

(** ** Commit *)

Lemma lastValue_app (key : string) (l1 l2 : list Debug.BuildSetting) :
  lastValue key (l1 ++ l2)%list
  = match lastValue key l2 with
    | Some value => Some value
    | None => lastValue key l1
    end.
Proof.
  induction l1 as [|s l1 IH]; simpl.
  - now destruct (lastValue key l2).
  - rewrite IH. now destruct (lastValue key l2).
Qed.

(** A setting that Commit does not read, or that a later setting with the
    same key overrides, does not change the last values. *)
Lemma lastValue_skip (key : string) (l1 l2 : list Debug.BuildSetting)
    (s : Debug.BuildSetting) :
  Debug.Key s <> key \/ lastValue (Debug.Key s) l2 <> None ->
  lastValue key (l1 ++ s :: l2)%list = lastValue key (l1 ++ l2)%list.
Proof.
  intros C. rewrite !lastValue_app. cbn [lastValue].
  destruct (lastValue key l2) as [v|] eqn:E; trivial.
  destruct (String.eqb_spec (Debug.Key s) key) as [K|K]; trivial.
  destruct C as [C|C]; [ contradiction | ]. rewrite K in C. contradiction.
Qed.

(** The state of the loop of commit_hash.go after all settings. *)
Lemma CommitHash_state (l : list Debug.BuildSetting) :
  forall (h : string) (d : bool),
    fold_left CommitHash.scan l (h, d)
    = (match lastValue "vcs.revision" l with
       | Some value => shortRevision value
       | None => h
       end,
       match lastValue "vcs.modified" l with
       | Some value => value =? "true"
       | None => d
       end).
Proof.
  induction l as [|s l IH]; intros h d; cbn [fold_left lastValue]; trivial.
  rewrite (surjective_pairing (CommitHash.scan (h, d) s)), IH.
  unfold CommitHash.scan, shortRevision. cbn [fst snd].
  destruct (lastValue "vcs.revision" l), (lastValue "vcs.modified" l);
    trivial;
    destruct (String.eqb_spec (Debug.Key s) "vcs.modified") as [K|K];
    trivial;
    try (rewrite K; reflexivity);
    destruct (String.eqb_spec (Debug.Key s) "vcs.revision"); reflexivity.
Qed.

(** The same for the variant that keeps the value of vcs.modified. *)
Lemma CommitHashString_state (l : list Debug.BuildSetting) :
  forall h d : string,
    fold_left CommitHashString.scan l (h, d)
    = (match lastValue "vcs.revision" l with
       | Some value => shortRevision value
       | None => h
       end,
       match lastValue "vcs.modified" l with
       | Some value => value
       | None => d
       end).
Proof.
  induction l as [|s l IH]; intros h d; cbn [fold_left lastValue]; trivial.
  rewrite (surjective_pairing (CommitHashString.scan (h, d) s)), IH.
  unfold CommitHashString.scan, shortRevision. cbn [fst snd].
  destruct (lastValue "vcs.revision" l), (lastValue "vcs.modified" l);
    trivial;
    destruct (String.eqb_spec (Debug.Key s) "vcs.modified") as [K|K];
    trivial;
    try (rewrite K; reflexivity);
    destruct (String.eqb_spec (Debug.Key s) "vcs.revision"); reflexivity.
Qed.

(** Both variants read the last vcs.revision and the last vcs.modified
    setting and nothing else: a setting with another key, or one that a
    later setting with the same key overrides, can be removed without
    changing what Commit returns. *)
Theorem Commit_last_setting_counts (l1 l2 : list Debug.BuildSetting)
    (s : Debug.BuildSetting) :
  vcsKey (Debug.Key s) = false \/ lastValue (Debug.Key s) l2 <> None ->
  CommitHash.Commit (Some {| Debug.Settings := (l1 ++ s :: l2)%list |})
  = CommitHash.Commit (Some {| Debug.Settings := (l1 ++ l2)%list |})
  /\ CommitHashString.Commit
       (Some {| Debug.Settings := (l1 ++ s :: l2)%list |})
     = CommitHashString.Commit (Some {| Debug.Settings := (l1 ++ l2)%list |}).
Proof.
  intros C.
  assert (Q : forall key, vcsKey key = true ->
                lastValue key (l1 ++ s :: l2)%list
                = lastValue key (l1 ++ l2)%list).
  { intros key K. apply lastValue_skip.
    destruct C as [C|C]; [ left | now right ].
    intros E. rewrite E in C. congruence. }
  unfold CommitHash.Commit, CommitHashString.Commit. cbn [Debug.Settings].
  rewrite !CommitHash_state, !CommitHashString_state.
  rewrite (Q "vcs.revision" eq_refl), (Q "vcs.modified" eq_refl).
  split; reflexivity.
Qed.

Lemma Commit_last_setting_counts_witness :
  CommitHash.Commit
    (Some {| Debug.Settings :=
               [ {| Debug.Key := "vcs.modified"; Debug.Value := "false" |};
                 {| Debug.Key := "vcs.revision"; Debug.Value := "0000000" |};
                 {| Debug.Key := "vcs.revision"; Debug.Value := revision |};
                 {| Debug.Key := "vcs.modified"; Debug.Value := "true" |} ] |})
  = CommitHash.Commit
      (Some {| Debug.Settings :=
                 [ {| Debug.Key := "vcs.modified"; Debug.Value := "false" |};
                   {| Debug.Key := "vcs.revision"; Debug.Value := revision |};
                   {| Debug.Key := "vcs.modified"; Debug.Value := "true" |} ] |})
  /\ CommitHashString.Commit
       (Some {| Debug.Settings :=
                  [ {| Debug.Key := "vcs.modified"; Debug.Value := "false" |};
                    {| Debug.Key := "vcs.revision"; Debug.Value := "0000000" |};
                    {| Debug.Key := "vcs.revision"; Debug.Value := revision |};
                    {| Debug.Key := "vcs.modified"; Debug.Value := "true" |} ] |})
     = CommitHashString.Commit
         (Some {| Debug.Settings :=
                    [ {| Debug.Key := "vcs.modified"; Debug.Value := "false" |};
                      {| Debug.Key := "vcs.revision"; Debug.Value := revision |};
                      {| Debug.Key := "vcs.modified"; Debug.Value := "true" |} ] |}).
Proof.
  apply (Commit_last_setting_counts
           [ {| Debug.Key := "vcs.modified"; Debug.Value := "false" |} ]
           [ {| Debug.Key := "vcs.revision"; Debug.Value := revision |};
             {| Debug.Key := "vcs.modified"; Debug.Value := "true" |} ]
           {| Debug.Key := "vcs.revision"; Debug.Value := "0000000" |}).
  right. discriminate.
Defined.

Lemma substring_0_all (s : string) :
  forall n, (String.length s <= n)%nat -> substring 0 n s = s.
Proof.
  induction s as [|c s IH]; intros [|n] L; simpl in *; trivial; try lia.
  f_equal. apply IH. lia.
Qed.

Lemma substring_0_length (s : string) :
  forall n, String.length (substring 0 n s) = Nat.min n (String.length s).
Proof.
  induction s as [|c s IH]; intros [|n]; simpl; trivial.
  now rewrite IH.
Qed.

Lemma substring_0_prefix (s : string) :
  forall n, prefix (substring 0 n s) s = true.
Proof.
  induction s as [|c s IH]; intros [|n]; simpl; trivial.
  destruct (ascii_dec c c); [ apply IH | congruence ].
Qed.

Lemma length_append (s t : string) :
  String.length (s ++ t) = (String.length s + String.length t)%nat.
Proof. induction s as [|c s IH]; simpl; congruence. Qed.

(** The test on the length only saves the slicing: the revision kept is
    the first seven bytes, or all of it when it is shorter. *)
Lemma shortRevision_substring (value : string) :
  shortRevision value = substring 0 7 value.
Proof.
  unfold shortRevision.
  destruct (Nat.ltb_spec 7 (String.length value)); trivial.
  symmetry. now apply substring_0_all.
Qed.

Lemma substring_0_7_empty (value : string) :
  substring 0 7 value = "" <-> value = "".
Proof. destruct value; simpl; split; congruence. Qed.

Lemma CommitHash_lastSetting (info : Debug.BuildInfo) :
  CommitHash.Commit (Some info)
  = if lastSetting "vcs.modified" info =? "true"
    then (if lastSetting "vcs.revision" info =? "" then "dirty"
          else substring 0 7 (lastSetting "vcs.revision" info) ++ "-dirty")
    else "".
Proof.
  unfold CommitHash.Commit, lastSetting. rewrite CommitHash_state.
  destruct (lastValue "vcs.revision" (Debug.Settings info)) as [r|];
    destruct (lastValue "vcs.modified" (Debug.Settings info)) as [m|];
    rewrite ?shortRevision_substring;
    try destruct (m =? "true"); trivial;
    destruct r; reflexivity.
Qed.

Lemma CommitHashString_lastSetting (info : Debug.BuildInfo) :
  CommitHashString.Commit (Some info)
  = if lastSetting "vcs.revision" info =? ""
    then (if lastSetting "vcs.modified" info =? "" then "" else "*-dirty")
    else substring 0 7 (lastSetting "vcs.revision" info)
           ++ (if lastSetting "vcs.modified" info =? "" then ""
               else "-dirty").
Proof.
  unfold CommitHashString.Commit, lastSetting.
  rewrite CommitHashString_state.
  destruct (lastValue "vcs.revision" (Debug.Settings info)) as [r|];
    destruct (lastValue "vcs.modified" (Debug.Settings info)) as [m|];
    rewrite ?shortRevision_substring;
    try destruct r as [|c r]; try destruct m as [|c' m];
    cbn [String.eqb negb andb substring]; rewrite ?append_nil_r;
    reflexivity.
Qed.

(** commit_hash.go reports provenance only for a modified working
    directory: Commit is not empty exactly when the last vcs.modified
    setting is "true", and then it is "dirty" without a revision and the
    first seven bytes of the last vcs.revision followed by "-dirty" with
    one. *)
Theorem CommitHash_provenance (info : Debug.BuildInfo) :
  (CommitHash.Commit (Some info) <> ""
   <-> lastSetting "vcs.modified" info = "true")
  /\ (lastSetting "vcs.modified" info = "true" ->
      CommitHash.Commit (Some info)
      = if lastSetting "vcs.revision" info =? "" then "dirty"
        else substring 0 7 (lastSetting "vcs.revision" info) ++ "-dirty")
  /\ CommitHash.Commit None = "".
Proof.
  rewrite CommitHash_lastSetting.
  destruct (String.eqb_spec (lastSetting "vcs.modified" info) "true")
    as [E|N].
  - split; [ | split; trivial ].
    split; trivial. intros _.
    destruct (lastSetting "vcs.revision" info =? ""); [ discriminate | ].
    destruct (substring 0 7 (lastSetting "vcs.revision" info));
      discriminate.
  - split; [ | split; [ contradiction | reflexivity ] ].
    split; [ congruence | contradiction ].
Qed.

Lemma CommitHash_provenance_witness :
  CommitHash.Commit (Some dirtyBuild)
  = if lastSetting "vcs.revision" dirtyBuild =? "" then "dirty"
    else substring 0 7 (lastSetting "vcs.revision" dirtyBuild) ++ "-dirty".
Proof.
  apply (proj1 (proj2 (CommitHash_provenance dirtyBuild))). reflexivity.
Defined.

(** The variant that keeps vcs.modified as a string reports every
    revision: with a non-empty last vcs.revision it returns its first seven
    bytes, followed by "-dirty" when the last vcs.modified has any value
    (also "false"); without one it returns "*-dirty" when vcs.modified has
    a value; it returns the empty string exactly when both are missing or
    empty. *)
Theorem CommitHashString_provenance (info : Debug.BuildInfo) :
  (lastSetting "vcs.revision" info <> "" ->
   CommitHashString.Commit (Some info)
   = substring 0 7 (lastSetting "vcs.revision" info)
       ++ (if lastSetting "vcs.modified" info =? "" then "" else "-dirty")
   /\ CommitHashString.Commit (Some info) <> "")
  /\ (lastSetting "vcs.revision" info = "" ->
      lastSetting "vcs.modified" info <> "" ->
      CommitHashString.Commit (Some info) = "*-dirty")
  /\ (CommitHashString.Commit (Some info) = ""
      <-> lastSetting "vcs.revision" info = ""
          /\ lastSetting "vcs.modified" info = "")
  /\ CommitHashString.Commit None = "".
Proof.
  rewrite CommitHashString_lastSetting.
  destruct (String.eqb_spec (lastSetting "vcs.revision" info) "") as [Er|Nr];
    destruct (String.eqb_spec (lastSetting "vcs.modified" info) "")
      as [Em|Nm].
  - repeat split; trivial; contradiction.
  - repeat split; trivial; try contradiction; try discriminate.
    now intros [_ ?].
  - assert (N : substring 0 7 (lastSetting "vcs.revision" info) ++ "" <> "").
    { rewrite append_nil_r. now rewrite substring_0_7_empty. }
    repeat split; trivial; try contradiction. now intros [? _].
  - assert (N : substring 0 7 (lastSetting "vcs.revision" info) ++ "-dirty"
                <> "").
    { destruct (substring 0 7 (lastSetting "vcs.revision" info));
        discriminate. }
    repeat split; trivial; try contradiction. now intros [? _].
Qed.

Lemma CommitHashString_provenance_witness :
  CommitHashString.Commit (Some revisionOnly)
  = substring 0 7 (lastSetting "vcs.revision" revisionOnly)
      ++ (if lastSetting "vcs.modified" revisionOnly =? "" then ""
          else "-dirty")
  /\ CommitHashString.Commit (Some revisionOnly) <> "".
Proof.
  apply (proj1 (CommitHashString_provenance revisionOnly)). discriminate.
Defined.

(** Neither variant returns more than 13 bytes, of which at most the first
    seven are a prefix of the revision. *)
Theorem Commit_length (readBuildInfo : option Debug.BuildInfo) :
  (String.length (CommitHash.Commit readBuildInfo) <= 13)%nat
  /\ (String.length (CommitHashString.Commit readBuildInfo) <= 13)%nat
  /\ (forall (st : string * bool) (st' : string * string) (value : string),
        let setting :=
          {| Debug.Key := "vcs.revision"; Debug.Value := value |} in
        fst (CommitHash.scan st setting) = fst (CommitHashString.scan st' setting)
        /\ prefix (fst (CommitHash.scan st setting)) value = true
        /\ String.length (fst (CommitHash.scan st setting))
           = Nat.min 7 (String.length value)).
Proof.
  split; [ | split ].
  - destruct readBuildInfo as [info|]; [ | simpl; lia ].
    rewrite CommitHash_lastSetting.
    destruct (lastSetting "vcs.modified" info =? "true"); [ | simpl; lia ].
    destruct (lastSetting "vcs.revision" info =? ""); [ simpl; lia | ].
    rewrite length_append, substring_0_length. cbn [String.length]. lia.
  - destruct readBuildInfo as [info|]; [ | simpl; lia ].
    rewrite CommitHashString_lastSetting.
    destruct (lastSetting "vcs.revision" info =? "");
      destruct (lastSetting "vcs.modified" info =? ""); try (simpl; lia);
      rewrite length_append, substring_0_length; cbn [String.length]; lia.
  - intros st st' value setting.
    unfold CommitHash.scan, CommitHashString.scan, setting.
    cbn [Debug.Key Debug.Value String.eqb Ascii.eqb Bool.eqb fst snd].
    change (if 7 <? String.length value then substring 0 7 value else value)%nat
      with (shortRevision value).
    rewrite shortRevision_substring.
    split; [ reflexivity | split ].
    + apply substring_0_prefix.
    + apply substring_0_length.
Qed.

(** Where commit_hash.go returns a revision, the other variant returns the
    same string: the two differ only where commit_hash.go returns nothing
    or "dirty". *)
Theorem Commit_variants_agree (readBuildInfo : option Debug.BuildInfo) :
  CommitHash.Commit readBuildInfo = ""
  \/ CommitHash.Commit readBuildInfo = "dirty"
  \/ CommitHashString.Commit readBuildInfo = CommitHash.Commit readBuildInfo.
Proof.
  destruct readBuildInfo as [info|]; [ | now left ].
  rewrite CommitHash_lastSetting, CommitHashString_lastSetting.
  destruct (String.eqb_spec (lastSetting "vcs.modified" info) "true")
    as [E|N]; [ | now left ].
  destruct (lastSetting "vcs.revision" info =? ""); [ right; now left | ].
  right. right. now rewrite E.
Qed.

(** ** Current and IsZero *)

(** Whatever Commit returns, Current is the release 0.3.0: it renders as
    "0.3.0" in Short and Core, as "0.3.0" or "0.3.0+" followed by the
    commit string in String, it has the precedence of every other build of
    the package, and it is never the zero version. *)
Theorem Current_is_release (arch : Arch)
    (Commit Commit' : option Debug.BuildInfo -> string)
    (readBuildInfo readBuildInfo' : option Debug.BuildInfo) :
  let v := Package.Current Commit readBuildInfo in
  Version.Short v = "0.3.0"
  /\ Version.Core v = "0.3.0"
  /\ Version.String v
     = "0.3.0" ++ (if Commit readBuildInfo =? "" then ""
                   else "+" ++ Commit readBuildInfo)
  /\ Version.Compare v (Package.Current Commit' readBuildInfo') = Some 0
  /\ Version.Compare v (Version.mk 0 3 0 "" "") = Some 0
  /\ Version.IsZero v = false.
Proof.
  intros v. unfold v, Package.Current.
  repeat split.
  unfold Version.String.
  cbn [Version.Major Version.Minor Version.Patch Version.PreRelease
       Version.Build String.eqb negb andb].
  destruct (Commit readBuildInfo =? ""); reflexivity.
Qed.

(** IsZero holds for the zero value only: build metadata counts, so
    0.0.0 with build metadata is not zero although Compare puts it level
    with the zero value. *)
Theorem IsZero_iff (arch : Arch) (v : Version.t) :
  (Version.IsZero v = true <-> v = zeroVersion)
  /\ (Version.IsZero v = Version.Equal v zeroVersion)
  /\ (forall build : string, build <> "" ->
        Version.IsZero (Version.mk 0 0 0 "" build) = false
        /\ Version.Compare (Version.mk 0 0 0 "" build) zeroVersion = Some 0).
Proof.
  split; [ | split ].
  - unfold Version.IsZero, zeroVersion.
    rewrite !andb_true_iff, !Z.eqb_eq, !String.eqb_eq.
    destruct v; simpl. split.
    + intros ((((-> & ->) & ->) & ->) & ->). reflexivity.
    + intros [= -> -> -> -> ->]. tauto.
  - reflexivity.
  - intros build N. split; [ | reflexivity ].
    unfold Version.IsZero. cbn [Version.Build].
    apply String.eqb_neq in N. rewrite N. apply andb_false_r.
Qed.

Lemma IsZero_iff_witness :
  Version.IsZero (Version.mk 0 0 0 "" "3f2a9c4") = false
  /\ @Version.Compare amd64 (Version.mk 0 0 0 "" "3f2a9c4") zeroVersion
     = Some 0.
Proof.
  apply (proj2 (proj2 (IsZero_iff amd64 zeroVersion)) "3f2a9c4").
  discriminate.
Defined.
